(** * Geodesic dome viewer: pick tracking, click dispatch and mesh replacement

    A shallow embedding of [static/visualisation.js].  The module-level
    variables of the script ([mesh], [line], [points], [intersectedFace],
    [intersectedPoint], [cacheVertices], [cacheIndices], [params], the scene)
    form one explicit [State]; every handler of the script is a function on
    that state, returning the new state and the effects it issued
    ([fetch] calls and [alert]s).  The continuation of a [fetch] promise is a
    handler of its own, run when the response event arrives.

    JavaScript numbers are binary64 floats ([PrimFloat.float]); vertex and
    face indices are integers ([Z]).  Objects created by the renderer library
    live in a heap indexed by allocation order, so that a stale reference
    (an intersection record kept after its mesh was replaced) still points at
    the object it was taken from. *)

From Stdlib Require Import ZArith Floats Uint63 Bool Lia.
From stdpp Require Import base list strings.

Open Scope string_scope.
Open Scope Z_scope.

(** ** Renderer library values *)

(** [THREE.Color]: three components. *)
Module Color.
Record t := { r : float; g : float; b : float }.
End Color.

(** [new THREE.Color(hex)] ([Color.setHex]): one byte per channel, scaled
    to the unit interval.  The library's colour-space conversion is not
    modelled. *)
Definition channel (hex shift : Z) : float :=
  PrimFloat.div (PrimFloat.of_uint63 (Uint63.of_Z (Z.land (Z.shiftr hex shift) 255)))
                255%float.

Definition Color_hex (hex : Z) : Color.t :=
  {| Color.r := channel hex 16; Color.g := channel hex 8;
     Color.b := channel hex 0 |}.

(** The colour keywords used by the script, and its point colour. *)
Definition white : Color.t := Color_hex 0xFFFFFF.
Definition red : Color.t := Color_hex 0xFF0000.
Definition pointBlue : Color.t := Color_hex 0x0080ff.

(** [THREE.BufferAttribute] with [itemSize = 3]: a flat typed array and the
    version counter that [needsUpdate = true] increments. *)
Record BufferAttribute := { array : list float; version : nat }.

(** [array[k] = x] on a typed array: a write outside [0, length) is ignored,
    the array never grows. *)
Definition array_set (a : list float) (k : Z) (x : float) : list float :=
  if decide (0 ≤ k) then <[Z.to_nat k := x]> a else a.

(** [array[k]] : [undefined] outside the array. *)
Definition array_get (a : list float) (k : Z) : option float :=
  if decide (0 ≤ k) then a !! Z.to_nat k else None.

(** [attribute.setXYZ(index, x, y, z)]. *)
Definition setXYZ (attr : BufferAttribute) (index : Z) (x y z : float)
  : BufferAttribute :=
  let index := index * 3 in
  let a0 := array_set (array attr) (index + 0) x in
  let a1 := array_set a0 (index + 1) y in
  let a2 := array_set a1 (index + 2) z in
  {| array := a2; version := version attr |}.

(** [attribute.needsUpdate = true]. *)
Definition needsUpdate (attr : BufferAttribute) : BufferAttribute :=
  {| array := array attr; version := S (version attr) |}.

(** [attribute.count] is [array.length / itemSize].  The script only uses it
    as a loop bound [i < count] over integers, which holds exactly when
    [3 * i < array.length]; every array the script builds has a length that
    is a multiple of 3, where [count] is that length divided by 3. *)
Definition count (attr : BufferAttribute) : Z :=
  (Z.of_nat (length (array attr)) + 2) / 3.

(** The three slots of vertex [i], as read back from the attribute. *)
Definition getXYZ (attr : BufferAttribute) (i : Z)
  : option float * option float * option float :=
  (array_get (array attr) (i * 3 + 0),
   array_get (array attr) (i * 3 + 1),
   array_get (array attr) (i * 3 + 2)).

Definition slots_of (c : Color.t) : option float * option float * option float :=
  (Some (Color.r c), Some (Color.g c), Some (Color.b c)).

(** [new THREE.Float32BufferAttribute(values, 3)].  The rounding of each
    value to binary32 on storage is not modelled. *)
Definition Float32BufferAttribute (values : list float) : BufferAttribute :=
  {| array := values; version := 0 |}.

(** Geometries.  A [WireframeGeometry] is kept as the index and position
    buffers it was computed from, at the time it was built. *)
Inductive Geometry :=
| BufferGeometry (index : list (option Z)) (position color : BufferAttribute)
                 (disposed : bool)
| WireframeGeometry (src_index : list (option Z)) (src_position : BufferAttribute)
                    (disposed : bool)
| NoGeometry.

Inductive Material :=
| MeshPhongMaterial
| LineBasicMaterial
| PointsMaterial (size : float)
| NoMaterial.

(** An object of the scene graph; [type] is the library's type tag. *)
Record Object3D := { type : string; geometry : Geometry; material : Material }.

(** [geometry.getAttribute("color")]. *)
Definition getColor (o : Object3D) : option BufferAttribute :=
  match geometry o with
  | BufferGeometry _ _ c _ => Some c
  | _ => None
  end.

Definition getPosition (o : Object3D) : option BufferAttribute :=
  match geometry o with
  | BufferGeometry _ p _ _ => Some p
  | WireframeGeometry _ p _ => Some p
  | NoGeometry => None
  end.

Definition getIndex (o : Object3D) : list (option Z) :=
  match geometry o with
  | BufferGeometry i _ _ _ => i
  | WireframeGeometry i _ _ => i
  | NoGeometry => []
  end.

(** Applies [f] to the colour attribute of the object, in place. *)
Definition updColor (f : BufferAttribute → BufferAttribute) (o : Object3D)
  : Object3D :=
  match geometry o with
  | BufferGeometry i p c d =>
      {| type := type o; geometry := BufferGeometry i p (f c) d;
         material := material o |}
  | _ => o
  end.

(** [object.geometry.dispose()]. *)
Definition dispose (o : Object3D) : Object3D :=
  {| type := type o;
     geometry := match geometry o with
                 | BufferGeometry i p c _ => BufferGeometry i p c true
                 | WireframeGeometry i p _ => WireframeGeometry i p true
                 | NoGeometry => NoGeometry
                 end;
     material := material o |}.

(** [object.material.size = value]. *)
Definition setSize (value : float) (o : Object3D) : Object3D :=
  {| type := type o; geometry := geometry o;
     material := match material o with
                 | PointsMaterial _ => PointsMaterial value
                 | m => m
                 end |}.

(** ** Mesh snapshots, as exchanged with the service *)

(** An element of a JSON array that is either a number or an array of
    numbers; [flat] is [Array.prototype.flat()]. *)
Inductive jitem (A : Type) := JNum (x : A) | JArr (xs : list A).
Arguments JNum {A} x.
Arguments JArr {A} xs.

Definition flat {A} (l : list (jitem A)) : list A :=
  concat (map (fun e => match e with JNum x => [x] | JArr xs => xs end) l).

Record MeshSnapshot := {
  vertices : list (jitem float);
  indices : list (jitem Z) }.

(** ** Building the three layers *)

(** [x * 50] where [x] may be [undefined]. *)
Definition times50 (x : option float) : float :=
  match x with
  | Some x => PrimFloat.mul x 50%float
  | None => PrimFloat.nan
  end.

(** First loop of [createGeometry]: one step per group of three entries of
    [v]; entries past the end read as [undefined]. *)
Fixpoint scaled (v : list float) : list float :=
  match v with
  | [] => []
  | [x] => [times50 (Some x); times50 None; times50 None]
  | [x; y] => [times50 (Some x); times50 (Some y); times50 None]
  | x :: y :: z :: rest =>
      times50 (Some x) :: times50 (Some y) :: times50 (Some z) :: scaled rest
  end.

(** [colors.push(color.r, color.g, color.b)], once per step of the loop. *)
Fixpoint colored {A} (c : Color.t) (v : list A) : list float :=
  match v with
  | [] => []
  | [_] | [_; _] => [Color.r c; Color.g c; Color.b c]
  | _ :: _ :: _ :: rest =>
      Color.r c :: Color.g c :: Color.b c :: colored c rest
  end.

(** Second loop of [createGeometry]. *)
Fixpoint grouped (f : list Z) : list (option Z) :=
  match f with
  | [] => []
  | [x] => [Some x; None; None]
  | [x; y] => [Some x; Some y; None]
  | x :: y :: z :: rest => Some x :: Some y :: Some z :: grouped rest
  end.

Definition createGeometry (data : MeshSnapshot) : Geometry :=
  let v := flat (vertices data) in
  let f := flat (indices data) in
  BufferGeometry (grouped f)
                 (Float32BufferAttribute (scaled v))
                 (Float32BufferAttribute (colored white v))
                 false.

Definition createMesh (data : MeshSnapshot) : Object3D :=
  {| type := "Mesh"; geometry := createGeometry data;
     material := MeshPhongMaterial |}.

Definition createLine (mesh : Object3D) : Object3D :=
  {| type := "LineSegments";
     geometry := match getPosition mesh with
                 | Some p => WireframeGeometry (getIndex mesh) p false
                 | None => NoGeometry
                 end;
     material := LineBasicMaterial |}.

(** A [THREE.Vector3] read with [fromBufferAttribute]: a component past the
    end of the array is [undefined]. *)
Definition Vector3 : Type := option float * option float * option float.

(** First loop of [createPoints]: one vector per item of the attribute. *)
Fixpoint vectors (p : list float) : list Vector3 :=
  match p with
  | [] => []
  | [x] => [(Some x, None, None)]
  | [x; y] => [(Some x, Some y, None)]
  | x :: y :: z :: rest => (Some x, Some y, Some z) :: vectors rest
  end.

(** A value stored into a float array: [undefined] becomes NaN. *)
Definition stored (x : option float) : float :=
  match x with Some x => x | None => PrimFloat.nan end.

(** [z || 0]: zero replaces [undefined], NaN and both zeros. *)
Definition orZero (z : option float) : float :=
  match z with
  | Some z => if PrimFloat.is_nan z || PrimFloat.is_zero z then 0%float else z
  | None => 0%float
  end.

(** [new THREE.BufferGeometry().setFromPoints(vertices)]. *)
Definition setFromPoints (vs : list Vector3) : list float :=
  concat (map (fun v => match v with
                        | (x, y, z) => [stored x; stored y; orZero z]
                        end) vs).

Definition createPoints (mesh : Object3D) : Object3D :=
  let vs := match getPosition mesh with
            | Some p => vectors (array p)
            | None => []
            end in
  {| type := "Points";
     geometry := BufferGeometry [] (Float32BufferAttribute (setFromPoints vs))
                   (Float32BufferAttribute
                      (concat (map (fun _ => [Color.r pointBlue; Color.g pointBlue;
                                              Color.b pointBlue]) vs)))
                   false;
     material := PointsMaterial 2%float |}.

(** ** Pointer intersections *)

(** [intersection.face]: the three vertex indices of the triangle hit. *)
Module Face.
Record t := { a : Z; b : Z; c : Z }.
End Face.

(** One record of [raycaster.intersectObjects(scene.children)].  [object] is
    the heap address of the object hit.  The library fills [face] and
    [faceIndex] for a hit on a mesh and [index] for a hit on a point cloud;
    the script reads each only where the library fills it. *)
Record Intersection := {
  object : nat;
  face : Face.t;
  faceIndex : Z;
  index : Z }.

(** ** Script state *)

Record Params := {
  mode : string;
  storeValue : string;
  showEdges : bool;
  showFaces : bool;
  showPoints : bool;
  domeColor : Z;
  pointSize : float;
  searchDistance : Z }.

(** The module-level variables.  [heap] holds every object allocated so far;
    [mesh], [line] and [points] are addresses into it, [scene] is
    [scene.children].  [None] stands for both [undefined] and [null]. *)
Record State := {
  heap : list Object3D;
  scene : list nat;
  mesh : nat;
  line : nat;
  points : nat;
  intersectedFace : option Intersection;
  intersectedPoint : option Intersection;
  cacheVertices : option (list (jitem float));
  cacheIndices : option (list (jitem Z));
  params : Params }.

Definition with_heap (h : list Object3D) (s : State) : State :=
  {| heap := h; scene := scene s; mesh := mesh s; line := line s;
     points := points s; intersectedFace := intersectedFace s;
     intersectedPoint := intersectedPoint s; cacheVertices := cacheVertices s;
     cacheIndices := cacheIndices s; params := params s |}.

Definition with_scene (c : list nat) (s : State) : State :=
  {| heap := heap s; scene := c; mesh := mesh s; line := line s;
     points := points s; intersectedFace := intersectedFace s;
     intersectedPoint := intersectedPoint s; cacheVertices := cacheVertices s;
     cacheIndices := cacheIndices s; params := params s |}.

Definition with_layers (m l p : nat) (s : State) : State :=
  {| heap := heap s; scene := scene s; mesh := m; line := l;
     points := p; intersectedFace := intersectedFace s;
     intersectedPoint := intersectedPoint s; cacheVertices := cacheVertices s;
     cacheIndices := cacheIndices s; params := params s |}.

Definition with_intersectedFace (x : option Intersection) (s : State) : State :=
  {| heap := heap s; scene := scene s; mesh := mesh s; line := line s;
     points := points s; intersectedFace := x;
     intersectedPoint := intersectedPoint s; cacheVertices := cacheVertices s;
     cacheIndices := cacheIndices s; params := params s |}.

Definition with_intersectedPoint (x : option Intersection) (s : State) : State :=
  {| heap := heap s; scene := scene s; mesh := mesh s; line := line s;
     points := points s; intersectedFace := intersectedFace s;
     intersectedPoint := x; cacheVertices := cacheVertices s;
     cacheIndices := cacheIndices s; params := params s |}.

Definition with_cache (v : option (list (jitem float)))
    (i : option (list (jitem Z))) (s : State) : State :=
  {| heap := heap s; scene := scene s; mesh := mesh s; line := line s;
     points := points s; intersectedFace := intersectedFace s;
     intersectedPoint := intersectedPoint s; cacheVertices := v;
     cacheIndices := i; params := params s |}.

Definition with_params (p : Params) (s : State) : State :=
  {| heap := heap s; scene := scene s; mesh := mesh s; line := line s;
     points := points s; intersectedFace := intersectedFace s;
     intersectedPoint := intersectedPoint s; cacheVertices := cacheVertices s;
     cacheIndices := cacheIndices s; params := p |}.

(** Heap access through a reference. *)
Definition deref (s : State) (ref : nat) : option Object3D := heap s !! ref.

Definition modify (ref : nat) (f : Object3D → Object3D) (s : State) : State :=
  with_heap (alter f ref (heap s)) s.

(** [new ...]: the object gets the next free address. *)
Definition alloc (o : Object3D) (s : State) : State * nat :=
  (with_heap (heap s ++ [o]) s, length (heap s)).

(** [ref.type]. *)
Definition typeOf (s : State) (ref : nat) : string :=
  match deref s ref with
  | Some o => type o
  | None => ""
  end.

(** [scene.remove(object)]. *)
Definition scene_remove (ref : nat) (s : State) : State :=
  with_scene (filter (λ x, x ≠ ref) (scene s)) s.

(** [scene.add(object)]: the object is detached from its parent first, then
    appended to the children. *)
Definition scene_add (ref : nat) (s : State) : State :=
  with_scene (filter (λ x, x ≠ ref) (scene s) ++ [ref]) s.

Definition attached (s : State) (ref : nat) : Prop := ref ∈ scene s.

(** ** Highlighting *)

(** [attr.setXYZ(index, color.r, color.g, color.b)]. *)
Definition paint (index : Z) (color : Color.t) (attr : BufferAttribute)
  : BufferAttribute :=
  setXYZ attr index (Color.r color) (Color.g color) (Color.b color).

(** [highlightFace(color)]: paints the three vertices of the face held by
    [intersectedFace], in the colour attribute of the object that
    intersection was taken from.  The script only calls it while
    [intersectedFace] is set. *)
Definition highlightFace (color : Color.t) (s : State) : State :=
  match intersectedFace s with
  | Some hit =>
      modify (object hit)
        (updColor (λ attr,
           needsUpdate
             (paint (Face.c (face hit)) color
                (paint (Face.b (face hit)) color
                   (paint (Face.a (face hit)) color attr))))) s
  | None => s
  end.

(** [highlightPoint(color)], likewise for [intersectedPoint]. *)
Definition highlightPoint (color : Color.t) (s : State) : State :=
  match intersectedPoint s with
  | Some hit =>
      modify (object hit)
        (updColor (λ attr, needsUpdate (paint (index hit) color attr))) s
  | None => s
  end.

(** [highlightPointNeighbour(index, color)]: paints vertex [index] of the
    current [points] object. *)
Definition highlightPointNeighbour (index : Z) (color : Color.t) (s : State)
  : State :=
  modify (points s)
    (updColor (λ attr, needsUpdate (paint index color attr))) s.

(** ** Pointer tracking *)

(** [if (x)] on a variable holding [undefined], [null] or an object. *)
Definition truthy {A} (x : option A) : bool :=
  match x with Some _ => true | None => false end.

(** [hot != objects[0].object], where [hot] is [intersectedFace] or
    [intersectedPoint].  The left operand is [undefined], [null] or an
    intersection record, the right operand is a scene object: [null] and
    [undefined] differ from every object, and an intersection record is an
    object of its own, never the scene object it refers to. *)
Definition differs (hot : option Intersection) (obj : nat) : bool :=
  match hot with
  | None => true
  | Some _record => true
  end.

Definition onPointerMove (objects : list Intersection) (s : State) : State :=
  match objects with
  | hit :: _ =>
      if String.eqb (typeOf s (object hit)) "Mesh" then
        if differs (intersectedFace s) (object hit) then
          let s := if truthy (intersectedFace s)
                   then highlightFace white s else s in
          let s := if truthy (intersectedPoint s)
                   then highlightPoint pointBlue s else s in
          let s := with_intersectedFace (Some hit) s in
          highlightFace red s
        else s
      else if String.eqb (typeOf s (object hit)) "Points" then
        if differs (intersectedPoint s) (object hit) then
          let s := if truthy (intersectedPoint s)
                   then highlightPoint pointBlue s else s in
          let s := if truthy (intersectedFace s)
                   then highlightFace white s else s in
          let s := with_intersectedPoint (Some hit) s in
          highlightPoint red s
        else s
      else s
  | [] =>
      let s := if truthy (intersectedFace s)
               then highlightFace white s else s in
      let s := if truthy (intersectedPoint s)
               then highlightPoint pointBlue s else s in
      let s := with_intersectedFace None s in
      with_intersectedPoint None s
  end.

(** ** Requests and responses *)

(** The [fetch] calls of the script, one constructor per endpoint, with the
    fields of the body.  A [null] field of a JSON body is [None]. *)
Inductive Request :=
| tesselate (body : Z)
| reset
| faceselective (index : Z) (vertices : option (list (jitem float)))
                (indices : option (list (jitem Z)))
| vertexselective (index : Z) (distance : Z)
| search (index : Z) (distance : Z)
| retrieve (index : Z)
| store (index : Z) (value : string).

Inductive Effect :=
| fetch (request : Request)
| alert (message : string).

(** [onClick]: the requests issued by a click; the script state is not
    touched until a response arrives. *)
Definition onClick (objects : list Intersection) (s : State) : list Effect :=
  match objects with
  | hit :: _ =>
      if String.eqb (typeOf s (object hit)) "Mesh" then
        if negb (String.eqb (mode (params s)) "tessellate") then []
        else [fetch (faceselective (faceIndex hit) (cacheVertices s)
                                   (cacheIndices s))]
      else if String.eqb (typeOf s (object hit)) "Points" then
        if String.eqb (mode (params s)) "tessellate" then
          [fetch (vertexselective (index hit) (searchDistance (params s)))]
        else if String.eqb (mode (params s)) "search" then
          [fetch (search (index hit) (searchDistance (params s)))]
        else if String.eqb (mode (params s)) "retrieve" then
          [fetch (retrieve (index hit))]
        else if String.eqb (mode (params s)) "store" then
          [fetch (store (index hit) (storeValue (params s)))]
        else []
      else []
  | [] => []
  end.

(** The block that installs a new dome, written out four times in the
    script: in the continuations of [tesselate], [resetDome],
    [faceselective] and [vertexselective]. *)
Definition installDome (data : MeshSnapshot) (s : State) : State :=
  let s := modify (mesh s) dispose s in
  let s := modify (line s) dispose s in
  let s := modify (points s) dispose s in
  let s := scene_remove (mesh s) s in
  let s := scene_remove (line s) s in
  let s := scene_remove (points s) s in
  let newMesh := createMesh data in
  let '(s, m) := alloc newMesh s in
  let '(s, l) := alloc (createLine newMesh) s in
  let '(s, p) := alloc (createPoints newMesh) s in
  let s := with_layers m l p s in
  let s := scene_add (mesh s) s in
  let s := modify (points s) (setSize (pointSize (params s))) s in
  let s := if showEdges (params s) then scene_add (line s) s else s in
  if showPoints (params s) then scene_add (points s) s else s.

(** Continuation of the "tesselate all" request. *)
Definition tesselate_then (data : MeshSnapshot) (s : State) : State :=
  installDome data s.

(** Continuation of the "reset dome" request. *)
Definition resetDome_then (data : MeshSnapshot) (s : State) : State :=
  installDome data s.

(** Continuation of the [faceselective] request. *)
Definition faceselective_then (data : MeshSnapshot) (s : State) : State :=
  let s := with_cache (Some (vertices data)) (Some (indices data)) s in
  installDome data s.

(** Continuation of the [vertexselective] request. *)
Definition vertexselective_then (data : MeshSnapshot) (s : State) : State :=
  let s := with_cache (Some (vertices data)) (Some (indices data)) s in
  installDome data s.

(** Continuation of the [search] request: the loop over [data.vertices]. *)
Definition search_then (found : list Z) (s : State) : State :=
  fold_left (λ s i, highlightPointNeighbour i red s) found s.

(** ** Control panel *)

Definition set_mode (v : string) (p : Params) : Params :=
  {| mode := v; storeValue := storeValue p; showEdges := showEdges p;
     showFaces := showFaces p; showPoints := showPoints p;
     domeColor := domeColor p; pointSize := pointSize p;
     searchDistance := searchDistance p |}.

Definition set_storeValue (v : string) (p : Params) : Params :=
  {| mode := mode p; storeValue := v; showEdges := showEdges p;
     showFaces := showFaces p; showPoints := showPoints p;
     domeColor := domeColor p; pointSize := pointSize p;
     searchDistance := searchDistance p |}.

Definition set_showEdges (v : bool) (p : Params) : Params :=
  {| mode := mode p; storeValue := storeValue p; showEdges := v;
     showFaces := showFaces p; showPoints := showPoints p;
     domeColor := domeColor p; pointSize := pointSize p;
     searchDistance := searchDistance p |}.

Definition set_showFaces (v : bool) (p : Params) : Params :=
  {| mode := mode p; storeValue := storeValue p; showEdges := showEdges p;
     showFaces := v; showPoints := showPoints p;
     domeColor := domeColor p; pointSize := pointSize p;
     searchDistance := searchDistance p |}.

Definition set_showPoints (v : bool) (p : Params) : Params :=
  {| mode := mode p; storeValue := storeValue p; showEdges := showEdges p;
     showFaces := showFaces p; showPoints := v;
     domeColor := domeColor p; pointSize := pointSize p;
     searchDistance := searchDistance p |}.

Definition set_domeColor (v : Z) (p : Params) : Params :=
  {| mode := mode p; storeValue := storeValue p; showEdges := showEdges p;
     showFaces := showFaces p; showPoints := showPoints p;
     domeColor := v; pointSize := pointSize p;
     searchDistance := searchDistance p |}.

Definition set_pointSize (v : float) (p : Params) : Params :=
  {| mode := mode p; storeValue := storeValue p; showEdges := showEdges p;
     showFaces := showFaces p; showPoints := showPoints p;
     domeColor := domeColor p; pointSize := v;
     searchDistance := searchDistance p |}.

Definition set_searchDistance (v : Z) (p : Params) : Params :=
  {| mode := mode p; storeValue := storeValue p; showEdges := showEdges p;
     showFaces := showFaces p; showPoints := showPoints p;
     domeColor := domeColor p; pointSize := pointSize p;
     searchDistance := v |}.

(** The controller writes the new value into [params], then runs the
    [onChange] callback. *)
Definition pointSize_onChange (value : float) (s : State) : State :=
  let s := with_params (set_pointSize value (params s)) s in
  modify (points s) (setSize value) s.

Definition showPoints_onChange (value : bool) (s : State) : State :=
  let s := with_params (set_showPoints value (params s)) s in
  if value then scene_add (points s) s else scene_remove (points s) s.

Definition showEdges_onChange (value : bool) (s : State) : State :=
  let s := with_params (set_showEdges value (params s)) s in
  if value then scene_add (line s) s else scene_remove (line s) s.

Definition showFaces_onChange (value : bool) (s : State) : State :=
  let s := with_params (set_showFaces value (params s)) s in
  if value then scene_add (mesh s) s else scene_remove (mesh s) s.

(** "reset points": every item of the point colour attribute is painted
    with the point colour. *)
Definition resetPoints (s : State) : State :=
  modify (points s)
    (updColor (λ attr,
       fold_left (λ attr i, needsUpdate (paint (Z.of_nat i) pointBlue attr))
                 (seq 0 (Z.to_nat (count attr))) attr)) s.

(** ** Events *)

Inductive Event :=
| mousemove (objects : list Intersection)
| click (objects : list Intersection)
| gui_tesselate
| gui_resetDome
| gui_reset
| gui_mode (value : string)
| gui_storeValue (value : string)
| gui_pointSize (value : float)
| gui_showPoints (value : bool)
| gui_showEdges (value : bool)
| gui_showFaces (value : bool)
| gui_domeColor (value : Z)
| gui_searchDistance (value : Z)
| tesselate_response (data : MeshSnapshot)
| reset_response (data : MeshSnapshot)
| faceselective_response (data : MeshSnapshot)
| vertexselective_response (data : MeshSnapshot)
| search_response (found : list Z)
| retrieve_response (value : string)
| store_response (success : bool).

(** One turn of the event loop: the handler of the event runs to completion.
    The colour of the spot light, which "dome colour" also sets, is not part
    of the state. *)
Definition handle (e : Event) (s : State) : State * list Effect :=
  match e with
  | mousemove objects => (onPointerMove objects s, [])
  | click objects => (s, onClick objects s)
  | gui_tesselate => (s, [fetch (tesselate 1)])
  | gui_resetDome => (s, [fetch reset])
  | gui_reset => (resetPoints s, [])
  | gui_mode v => (with_params (set_mode v (params s)) s, [])
  | gui_storeValue v => (with_params (set_storeValue v (params s)) s, [])
  | gui_pointSize v => (pointSize_onChange v s, [])
  | gui_showPoints v => (showPoints_onChange v s, [])
  | gui_showEdges v => (showEdges_onChange v s, [])
  | gui_showFaces v => (showFaces_onChange v s, [])
  | gui_domeColor v => (with_params (set_domeColor v (params s)) s, [])
  | gui_searchDistance v =>
      (with_params (set_searchDistance v (params s)) s, [])
  | tesselate_response data => (tesselate_then data s, [])
  | reset_response data => (resetDome_then data s, [])
  | faceselective_response data => (faceselective_then data s, [])
  | vertexselective_response data => (vertexselective_then data s, [])
  | search_response found => (search_then found s, [])
  | retrieve_response value => (s, [alert value])
  | store_response success => (s, [alert (if success then "true" else "false")])
  end.

Fixpoint run (events : list Event) (s : State) : State :=
  match events with
  | [] => s
  | e :: rest => run rest (fst (handle e s))
  end.

(** ** Start-up *)

Definition camera : Object3D :=
  {| type := "PerspectiveCamera"; geometry := NoGeometry;
     material := NoMaterial |}.

(** The state once the script has been loaded.  [data] is the dome imported
    from [icojson.js].  The camera and the mesh are attached to the scene,
    the wireframe and the points are built but not attached. *)
Definition start (data : MeshSnapshot) : State :=
  {| heap := [camera; createMesh data; createLine (createMesh data);
              createPoints (createMesh data)];
     scene := [0%nat; 1%nat];
     mesh := 1; line := 2; points := 3;
     intersectedFace := None;
     intersectedPoint := None;
     cacheVertices := None;
     cacheIndices := None;
     params := {| mode := "view"; storeValue := "value"; showEdges := false;
                  showFaces := true; showPoints := false;
                  domeColor := 0xffa64d; pointSize := 2%float;
                  searchDistance := 0 |} |}.

(** A small dome for worked examples: one triangle, sent nested. *)
Definition triangle : MeshSnapshot :=
  {| vertices := [JArr [0%float; 0%float; 1%float];
                  JArr [1%float; 0%float; 0%float];
                  JArr [0%float; 1%float; 0%float]];
     indices := [JArr [0; 1; 2]] |}.

(** A second one: two triangles over four vertices, sent flat. *)
Definition square : MeshSnapshot :=
  {| vertices := map JNum [0%float; 0%float; 0%float; 1%float; 0%float; 0%float;
                           1%float; 1%float; 0%float; 0%float; 1%float; 0%float];
     indices := map JNum [0; 1; 2; 0; 2; 3] |}.

(** Pointer over face 0 of the current mesh of [triangle]. *)
Definition overFace (obj : nat) : Intersection :=
  {| object := obj; face := {| Face.a := 0; Face.b := 1; Face.c := 2 |};
     faceIndex := 0; index := 0 |}.

(** Pointer over vertex [i] of a point cloud, or segment [i] of a wireframe. *)
Definition overItem (obj : nat) (i : Z) : Intersection :=
  {| object := obj; face := {| Face.a := 0; Face.b := 0; Face.c := 0 |};
     faceIndex := 0; index := i |}.

(** ** The earlier variant, [public/visualisation.js] *)

(** The variant served from [public/] reads [data.vertices] and
    [data.indices] as flat arrays, without flattening them, and its only
    dome request is the one of the "tesselation factor" slider, whose
    continuation re-applies neither the toggles nor the point size. *)
Module Public.

Definition createGeometry (vertices : list float) (indices : list Z) : Geometry :=
  BufferGeometry (grouped indices)
                 (Float32BufferAttribute (scaled vertices))
                 (Float32BufferAttribute (colored white vertices))
                 false.

Definition createMesh (vertices : list float) (indices : list Z) : Object3D :=
  {| type := "Mesh"; geometry := createGeometry vertices indices;
     material := MeshPhongMaterial |}.


End Public.

(** ** Derived notions used in the statements *)

(** The events whose handler assigns [cacheVertices] and [cacheIndices]. *)
Definition writes_cache (e : Event) : bool :=
  match e with
  | faceselective_response _ | vertexselective_response _ => true
  | _ => false
  end.

(** Vertex [j] has its three slots inside the attribute. *)
Definition has_vertex (attr : BufferAttribute) (j : Z) : Prop :=
  0 ≤ j ∧ j * 3 + 2 < Z.of_nat (length (array attr)).

(** The writes of a whole search response on one attribute. *)
Definition paintAll (c : Color.t) (found : list Z) (attr : BufferAttribute)
  : BufferAttribute :=
  fold_left (λ attr i, needsUpdate (paint i c attr)) found attr.

(** The colour attribute reached through a reference. *)
Definition colorsOf (s : State) (ref : nat) : option BufferAttribute :=
  deref s ref ≫= getColor.

(** The heap after the three old layers were disposed of. *)
Definition retired (s : State) : list Object3D :=
  alter dispose (points s)
    (alter dispose (line s) (alter dispose (mesh s) (heap s))).

(** Every child of the scene is an allocated object. *)
Definition scene_allocated (s : State) : Prop :=
  ∀ ref, ref ∈ scene s → (ref < length (heap s))%nat.

(** Every complete item of the array holds the three components of [c]. *)
Definition uniform (c : Color.t) (l : list float) : Prop :=
  ∀ j : nat, (3 * j + 2 < length l)%nat →
    l !! (3 * j)%nat = Some (Color.r c) ∧
    l !! (3 * j + 1)%nat = Some (Color.g c) ∧
    l !! (3 * j + 2)%nat = Some (Color.b c).

(** The array is made of complete items. *)
Definition complete {A} (l : list A) : Prop := ∃ n : nat, length l = (3 * n)%nat.

(** The length of the colour array reached through a reference of a heap. *)
Definition colorLen (h : list Object3D) (ref : nat) : option nat :=
  (λ c, length (array c)) <$> (h !! ref ≫= getColor).

(** The three writes and the upload flag of [highlightFace]. *)
Definition paintFace (f : Face.t) (color : Color.t) (attr : BufferAttribute)
  : BufferAttribute :=
  needsUpdate (paint (Face.c f) color (paint (Face.b f) color
                                         (paint (Face.a f) color attr))).

(** The object with its colour array emptied: what is left is its type,
    material, index and position buffers and its disposal flag. *)
Definition blank (o : Object3D) : Object3D :=
  updColor (λ _, {| array := []; version := 0 |}) o.

(** [s'] differs from [s] at most in the colour arrays of the heap and in
    the two pick references. *)
Definition recolored (s s' : State) : Prop :=
  blank <$> heap s' = blank <$> heap s ∧
  scene s' = scene s ∧ mesh s' = mesh s ∧ line s' = line s ∧
  points s' = points s ∧ cacheVertices s' = cacheVertices s ∧
  cacheIndices s' = cacheIndices s ∧ params s' = params s.

(** What the script keeps true of its state from start-up on. *)
Record consistent (s : State) : Prop := {
  layer_mesh : typeOf s (mesh s) = "Mesh";
  layer_line : typeOf s (line s) = "LineSegments";
  layer_points : typeOf s (points s) = "Points";
  camera_first : typeOf s 0 = "PerspectiveCamera";
  scene_current : ∀ ref, ref ∈ scene s →
    ref = 0%nat ∨ ref = mesh s ∨ ref = line s ∨ ref = points s;
  scene_NoDup : NoDup (scene s);
  camera_attached : 0%nat ∈ scene s;
  edges_shown : line s ∈ scene s ↔ showEdges (params s) = true;
  points_shown : points s ∈ scene s ↔ showPoints (params s) = true;
  faces_shown : showFaces (params s) = true → mesh s ∈ scene s;
  size_applied :
    (material <$> deref s (points s))
      = Some (PointsMaterial (pointSize (params s))) }.

(** The snapshot of the last response to a selective request among the
    events, [init] when there is none. *)
Fixpoint last_selective (events : list Event) (init : option MeshSnapshot)
  : option MeshSnapshot :=
  match events with
  | [] => init
  | faceselective_response d :: rest => last_selective rest (Some d)
  | vertexselective_response d :: rest => last_selective rest (Some d)
  | _ :: rest => last_selective rest init
  end.



(** * Properties *)

(** ** Typed arrays and colour attributes *)

Lemma array_set_length (a : list float) (k : Z) (x : float) :
  length (array_set a k x) = length a.
Proof. unfold array_set. case_decide; [apply length_insert | done]. Qed.

Lemma array_get_set_eq (a : list float) (k : Z) (x : float) :
  0 ≤ k < Z.of_nat (length a) → array_get (array_set a k x) k = Some x.
Proof.
  intros [Hlo Hhi]. unfold array_get, array_set.
  rewrite !decide_True by done.
  apply list_lookup_insert_eq. lia.
Qed.

Lemma array_get_set_ne (a : list float) (k k' : Z) (x : float) :
  k ≠ k' → array_get (array_set a k x) k' = array_get a k'.
Proof.
  intros Hne. unfold array_get, array_set.
  destruct (decide (0 ≤ k')); [|done].
  destruct (decide (0 ≤ k)); [|done].
  apply list_lookup_insert_ne. lia.
Qed.


Lemma paint_length (i : Z) (c : Color.t) (attr : BufferAttribute) :
  length (array (paint i c attr)) = length (array attr).
Proof. unfold paint, setXYZ. simpl. by rewrite !array_set_length. Qed.

Lemma paint_version (i : Z) (c : Color.t) (attr : BufferAttribute) :
  version (paint i c attr) = version attr.
Proof. done. Qed.

(** Painting vertex [i] gives it the colour, when it is a vertex of the
    attribute. *)
Lemma paint_same (i : Z) (c : Color.t) (attr : BufferAttribute) :
  has_vertex attr i → getXYZ (paint i c attr) i = slots_of c.
Proof.
  intros [Hlo Hhi]. unfold getXYZ, paint, setXYZ, slots_of. simpl.
  repeat f_equal.
  - rewrite !array_get_set_ne by lia.
    apply array_get_set_eq. lia.
  - rewrite array_get_set_ne by lia.
    apply array_get_set_eq. rewrite array_set_length. lia.
  - apply array_get_set_eq. rewrite !array_set_length. lia.
Qed.

(** Painting vertex [i] leaves the slots of every other vertex alone,
    wherever [i] and [j] lie. *)
Lemma paint_other (i j : Z) (c : Color.t) (attr : BufferAttribute) :
  i ≠ j → getXYZ (paint i c attr) j = getXYZ attr j.
Proof.
  intros Hne. unfold getXYZ, paint, setXYZ. simpl.
  by rewrite !array_get_set_ne by lia.
Qed.


Lemma needsUpdate_getXYZ (attr : BufferAttribute) (j : Z) :
  getXYZ (needsUpdate attr) j = getXYZ attr j.
Proof. done. Qed.


Lemma paintAll_unnamed (c : Color.t) (found : list Z) (attr : BufferAttribute)
    (j : Z) :
  j ∉ found → getXYZ (paintAll c found attr) j = getXYZ attr j.
Proof.
  revert attr. induction found as [|i found IH]; intros attr Hj; [done|].
  apply not_elem_of_cons in Hj as [Hne Hj].
  simpl. rewrite IH by done.
  rewrite needsUpdate_getXYZ. by apply paint_other.
Qed.

Lemma has_vertex_step (i j : Z) (c : Color.t) (attr : BufferAttribute) :
  has_vertex attr j → has_vertex (needsUpdate (paint i c attr)) j.
Proof.
  unfold has_vertex.
  change (array (needsUpdate (paint i c attr))) with (array (paint i c attr)).
  by rewrite paint_length.
Qed.

Lemma paintAll_named (c : Color.t) (found : list Z) (attr : BufferAttribute)
    (j : Z) :
  has_vertex attr j → j ∈ found → getXYZ (paintAll c found attr) j = slots_of c.
Proof.
  revert attr. induction found as [|i found IH]; intros attr Hv Hj.
  { by apply elem_of_nil in Hj. }
  simpl. destruct (decide (j ∈ found)) as [Hin|Hnotin].
  - apply IH; [|done]. by apply has_vertex_step.
  - apply elem_of_cons in Hj as [->|?]; [|done].
    rewrite paintAll_unnamed by done.
    rewrite needsUpdate_getXYZ. by apply paint_same.
Qed.


(** ** Heap and state frames *)

Lemma with_heap_id (s : State) : with_heap (heap s) s = s.
Proof. by destruct s. Qed.

Lemma updColor_id (f : BufferAttribute → BufferAttribute) (o : Object3D) :
  (∀ attr, f attr = attr) → updColor f o = o.
Proof.
  intros Hf. destruct o as [t [i p c d| |] m]; unfold updColor; simpl;
    by rewrite ?Hf.
Qed.

Lemma updColor_updColor (f h : BufferAttribute → BufferAttribute) (o : Object3D) :
  updColor f (updColor h o) = updColor (λ attr, f (h attr)) o.
Proof. by destruct o as [t [i p c d| |] m]. Qed.

Lemma getColor_updColor (f : BufferAttribute → BufferAttribute) (o : Object3D) :
  getColor (updColor f o) = f <$> getColor o.
Proof. by destruct o as [t [i p c d| |] m]. Qed.

Lemma getPosition_updColor (f : BufferAttribute → BufferAttribute) (o : Object3D) :
  getPosition (updColor f o) = getPosition o.
Proof. by destruct o as [t [i p c d| |] m]. Qed.

Lemma getIndex_updColor (f : BufferAttribute → BufferAttribute) (o : Object3D) :
  getIndex (updColor f o) = getIndex o.
Proof. by destruct o as [t [i p c d| |] m]. Qed.

Lemma type_updColor (f : BufferAttribute → BufferAttribute) (o : Object3D) :
  type (updColor f o) = type o.
Proof. by destruct o as [t [i p c d| |] m]. Qed.

Lemma deref_modify_eq (ref : nat) (f : Object3D → Object3D) (s : State) :
  deref (modify ref f s) ref = f <$> deref s ref.
Proof. apply list_lookup_alter_eq. Qed.

Lemma deref_modify_ne (ref ref' : nat) (f : Object3D → Object3D) (s : State) :
  ref ≠ ref' → deref (modify ref f s) ref' = deref s ref'.
Proof. intros Hne. by apply list_lookup_alter_ne. Qed.

Lemma modify_modify (ref : nat) (f h : Object3D → Object3D) (s : State) :
  modify ref f (modify ref h s) = modify ref (f ∘ h) s.
Proof.
  unfold modify, with_heap. simpl. f_equal. apply list_alter_alter_eq.
Qed.

Lemma modify_ext (ref : nat) (f h : Object3D → Object3D) (s : State) :
  (∀ o, f o = h o) → modify ref f s = modify ref h s.
Proof.
  intros Hfh. unfold modify. f_equal. by apply list_alter_ext.
Qed.

Lemma modify_id (ref : nat) (f : Object3D → Object3D) (s : State) :
  (∀ o, f o = o) → modify ref f s = s.
Proof.
  intros Hf. unfold modify. rewrite list_alter_id by done. apply with_heap_id.
Qed.

Lemma colorsOf_modify_eq (ref : nat) (f : BufferAttribute → BufferAttribute)
    (s : State) :
  colorsOf (modify ref (updColor f) s) ref = f <$> colorsOf s ref.
Proof.
  unfold colorsOf. rewrite deref_modify_eq.
  destruct (deref s ref) as [o|]; [|done]. simpl. apply getColor_updColor.
Qed.

(** Painting through a reference changes no type tag. *)
Lemma typeOf_modify_updColor (ref ref' : nat)
    (f : BufferAttribute → BufferAttribute) (s : State) :
  typeOf (modify ref (updColor f) s) ref' = typeOf s ref'.
Proof.
  unfold typeOf. destruct (decide (ref = ref')) as [->|Hne].
  - rewrite deref_modify_eq. destruct (deref s ref') as [o|]; [|done].
    simpl. apply type_updColor.
  - by rewrite deref_modify_ne.
Qed.

(** The whole search continuation is one update of the colour attribute of
    the current [points] object. *)
Lemma search_then_modify (found : list Z) (s : State) :
  search_then found s = modify (points s) (updColor (paintAll red found)) s.
Proof.
  revert s. induction found as [|i found IH]; intros s.
  - symmetry. apply modify_id. intros o. by apply updColor_id.
  - change (search_then (i :: found) s)
      with (search_then found (highlightPointNeighbour i red s)).
    rewrite IH. unfold highlightPointNeighbour.
    change (points (modify (points s)
              (updColor (λ attr, needsUpdate (paint i red attr))) s))
      with (points s).
    rewrite modify_modify. apply modify_ext. intros o.
    unfold compose. rewrite updColor_updColor. reflexivity.
Qed.

(** ** Installing a new dome *)

Lemma retired_length (s : State) : length (retired s) = length (heap s).
Proof. unfold retired. by rewrite !length_alter. Qed.

Lemma alter_last {A} (f : A → A) (l : list A) (x : A) :
  alter f (length l) (l ++ [x])%list = (l ++ [f x])%list.
Proof. induction l as [|y l IH]; simpl; [done|]. by f_equal. Qed.

Ltac installDome_cases s :=
  destruct s as [h sc m l p iF iP cv ci [md sv se sf sp dc ps sd]];
  destruct se, sp;
  cbv beta iota zeta delta
    [installDome alloc scene_add scene_remove modify retired attached
     with_heap with_scene with_layers heap scene mesh line points
     intersectedFace intersectedPoint cacheVertices cacheIndices params
     showEdges showPoints pointSize].

Lemma installDome_heap (data : MeshSnapshot) (s : State) :
  heap (installDome data s) =
    (retired s ++ [createMesh data; createLine (createMesh data);
                   setSize (pointSize (params s))
                           (createPoints (createMesh data))])%list.
Proof.
  installDome_cases s;
    rewrite (alter_last _ ((_ ++ [_]) ++ [_])%list);
    by rewrite <- !app_assoc.
Qed.

Lemma installDome_layers (data : MeshSnapshot) (s : State) :
  mesh (installDome data s) = length (heap s) ∧
  line (installDome data s) = S (length (heap s)) ∧
  points (installDome data s) = S (S (length (heap s))).
Proof.
  installDome_cases s; rewrite !length_app, !length_alter; simpl;
    repeat split; lia.
Qed.

(** What [installDome] does not touch. *)
Lemma installDome_frame (data : MeshSnapshot) (s : State) :
  intersectedFace (installDome data s) = intersectedFace s ∧
  intersectedPoint (installDome data s) = intersectedPoint s ∧
  cacheVertices (installDome data s) = cacheVertices s ∧
  cacheIndices (installDome data s) = cacheIndices s ∧
  params (installDome data s) = params s.
Proof. by installDome_cases s. Qed.

(** The three new layers, read back through the new references. *)
Lemma installDome_objects (data : MeshSnapshot) (s : State) :
  let s' := installDome data s in
  deref s' (mesh s') = Some (createMesh data) ∧
  deref s' (line s') = Some (createLine (createMesh data)) ∧
  deref s' (points s') =
    Some (setSize (pointSize (params s)) (createPoints (createMesh data))).
Proof.
  intros s'. subst s'. unfold deref.
  destruct (installDome_layers data s) as (-> & -> & ->).
  rewrite installDome_heap, <- retired_length.
  repeat split.
  - by rewrite (list_lookup_middle (retired s) _ _ (length (retired s))).
  - rewrite lookup_app_r by lia.
    by replace (S (length (retired s)) - length (retired s))%nat with 1%nat by lia.
  - rewrite lookup_app_r by lia.
    by replace (S (S (length (retired s))) - length (retired s))%nat
      with 2%nat by lia.
Qed.

Lemma start_scene_allocated (data : MeshSnapshot) :
  scene_allocated (start data).
Proof.
  intros ref Href. simpl in *.
  apply elem_of_cons in Href as [->|Href]; [lia|].
  apply elem_of_cons in Href as [->|Href]; [lia|].
  by apply elem_of_nil in Href.
Qed.

(** After a dome was installed the new mesh is attached whatever
    [showFaces] says, the new wireframe exactly when [showEdges] is set and
    the new points exactly when [showPoints] is set; the new points have the
    configured size. *)
Lemma installDome_attached (data : MeshSnapshot) (s : State) :
  scene_allocated s →
  let s' := installDome data s in
  attached s' (mesh s') ∧
  (attached s' (line s') ↔ showEdges (params s) = true) ∧
  (attached s' (points s') ↔ showPoints (params s) = true) ∧
  (material <$> deref s' (points s')) = Some (PointsMaterial (pointSize (params s))).
Proof.
  intros Hwf s'.
  assert (material <$> deref s' (points s')
          = Some (PointsMaterial (pointSize (params s)))) as Hsize.
  { destruct (installDome_objects data s) as (_ & _ & Hp).
    fold s' in Hp. by rewrite Hp. }
  split_and!; [..|exact Hsize]; clear Hsize; subst s';
    revert Hwf; unfold scene_allocated;
    installDome_cases s; rewrite ?length_app, ?length_alter; simpl;
    intros Hwf;
    repeat (setoid_rewrite elem_of_app || setoid_rewrite list_elem_of_filter
            || setoid_rewrite list_elem_of_singleton);
    pose proof (Hwf (length h)) as H0;
    pose proof (Hwf (length h + 1)%nat) as H1;
    pose proof (Hwf (length h + 1 + 1)%nat) as H2;
    clear Hwf; intuition (discriminate || lia).
Qed.

(** ** Pointer tracking *)

(** The two operands of the guard are never the same object, so the guard
    never skips a repaint. *)
Lemma differs_always (hot : option Intersection) (obj : nat) :
  differs hot obj = true.
Proof. by destruct hot. Qed.

(** A hit on anything but a mesh or a point cloud changes nothing. *)
Lemma onPointerMove_other (hit : Intersection) (rest : list Intersection)
    (s : State) :
  typeOf s (object hit) ≠ "Mesh" →
  typeOf s (object hit) ≠ "Points" →
  onPointerMove (hit :: rest) s = s.
Proof.
  intros Hmesh Hpoints. unfold onPointerMove.
  apply String.eqb_neq in Hmesh, Hpoints. by rewrite Hmesh, Hpoints.
Qed.

(** A hit on a point cloud records the point and keeps the face reference. *)
Lemma onPointerMove_points (hit : Intersection) (rest : list Intersection)
    (s : State) :
  typeOf s (object hit) = "Points" →
  intersectedPoint (onPointerMove (hit :: rest) s) = Some hit ∧
  intersectedFace (onPointerMove (hit :: rest) s) = intersectedFace s.
Proof.
  intros Htype. unfold onPointerMove. rewrite Htype. simpl.
  rewrite differs_always. clear Htype.
  destruct s as [h sc m l p [f|] [q|] cv ci pa]; done.
Qed.

(** A hit on a mesh records the face and keeps the point reference. *)
Lemma onPointerMove_mesh (hit : Intersection) (rest : list Intersection)
    (s : State) :
  typeOf s (object hit) = "Mesh" →
  intersectedFace (onPointerMove (hit :: rest) s) = Some hit ∧
  intersectedPoint (onPointerMove (hit :: rest) s) = intersectedPoint s.
Proof.
  intros Htype. unfold onPointerMove. rewrite Htype. simpl.
  rewrite differs_always. clear Htype.
  destruct s as [h sc m l p [f|] [q|] cv ci pa]; done.
Qed.

(** Pointer tracking never touches the cache, the layers or the panel. *)
Lemma onPointerMove_frame (objects : list Intersection) (s : State) :
  cacheVertices (onPointerMove objects s) = cacheVertices s ∧
  cacheIndices (onPointerMove objects s) = cacheIndices s ∧
  params (onPointerMove objects s) = params s ∧
  scene (onPointerMove objects s) = scene s.
Proof.
  unfold onPointerMove.
  destruct objects as [|hit rest]; repeat case_match;
    destruct s as [h sc m l p [f|] [q|] cv ci pa]; done.
Qed.

(** ** The cache *)

Lemma search_then_frame (found : list Z) (s : State) :
  cacheVertices (search_then found s) = cacheVertices s ∧
  cacheIndices (search_then found s) = cacheIndices s ∧
  mesh (search_then found s) = mesh s ∧
  line (search_then found s) = line s ∧
  points (search_then found s) = points s ∧
  scene (search_then found s) = scene s ∧
  params (search_then found s) = params s.
Proof. by rewrite search_then_modify. Qed.

(** Only the continuations of the two selective requests write the cache. *)
Lemma handle_cache (e : Event) (s : State) :
  writes_cache e = false →
  cacheVertices (fst (handle e s)) = cacheVertices s ∧
  cacheIndices (fst (handle e s)) = cacheIndices s.
Proof.
  intros He. destruct e; try discriminate He; cbn [handle fst].
  - by destruct (onPointerMove_frame objects s) as (-> & -> & _).
  - done.
  - done.
  - done.
  - done.
  - done.
  - done.
  - done.
  - unfold showPoints_onChange. by destruct value.
  - unfold showEdges_onChange. by destruct value.
  - unfold showFaces_onChange. by destruct value.
  - done.
  - done.
  - unfold tesselate_then.
    by destruct (installDome_frame data s) as (_ & _ & -> & -> & _).
  - unfold resetDome_then.
    by destruct (installDome_frame data s) as (_ & _ & -> & -> & _).
  - by destruct (search_then_frame found s) as (-> & -> & _).
  - done.
  - done.
Qed.


(** ** The claims *)

(** C1.  The claim: over every sequence of pointer moves at most one of
    [intersectedFace] and [intersectedPoint] is set.  The script does not
    keep this: the pointer moves onto face 0 of the dome and then onto
    vertex 0 of the point cloud; the face is repainted white, as the no-hit
    branch would do, but its reference is not cleared, and both references
    are set afterwards. *)
Theorem hover_face_then_point_keeps_both :
  let s := run [gui_showPoints true; mousemove [overFace 1];
                mousemove [overItem 3 0]] (start triangle) in
  intersectedFace s = Some (overFace 1) ∧
  intersectedPoint s = Some (overItem 3 0) ∧
  (colorsOf s 1 ≫= λ c, Some (getXYZ c 0)) = Some (slots_of white) ∧
  (colorsOf s 3 ≫= λ c, Some (getXYZ c 0)) = Some (slots_of red).
Proof. vm_compute. done. Qed.

(** C2.  The claim: after every dome response, the bulk ones included, the
    cache holds the response.  The continuation of "reset dome" (and of
    "tesselate all") installs the dome and leaves the cache as it was: here
    it is still empty although the mesh on screen is the response's. *)
Theorem bulk_response_leaves_cache :
  let s := fst (handle (reset_response square) (start triangle)) in
  let s' := fst (handle (tesselate_response square) (start triangle)) in
  deref s (mesh s) = Some (createMesh square) ∧
  cacheVertices s = None ∧ cacheIndices s = None ∧
  deref s' (mesh s') = Some (createMesh square) ∧
  cacheVertices s' = None ∧ cacheIndices s' = None.
Proof. vm_compute. done. Qed.

(** C3.  A click whose nearest hit is a mesh, in mode "tessellate", issues
    exactly one request: [faceselective] with the face index of the hit and
    the two cache variables as they are.  When the response arrives the
    cache holds the response's vertices and indices, and [mesh], [line] and
    [points] refer to the surface, wireframe and point cloud built from the
    response. *)
Theorem face_click_round_trip (s : State) (hit : Intersection)
    (rest : list Intersection) (data : MeshSnapshot) :
  typeOf s (object hit) = "Mesh" →
  mode (params s) = "tessellate" →
  handle (click (hit :: rest)) s =
    (s, [fetch (faceselective (faceIndex hit) (cacheVertices s)
                              (cacheIndices s))]) ∧
  let s' := fst (handle (faceselective_response data) s) in
  cacheVertices s' = Some (vertices data) ∧
  cacheIndices s' = Some (indices data) ∧
  deref s' (mesh s') = Some (createMesh data) ∧
  deref s' (line s') = Some (createLine (createMesh data)) ∧
  deref s' (points s') =
    Some (setSize (pointSize (params s)) (createPoints (createMesh data))).
Proof.
  intros Htype Hmode. split.
  - simpl. unfold onClick. by rewrite Htype, Hmode.
  - simpl. unfold faceselective_then.
    set (s0 := with_cache (Some (vertices data)) (Some (indices data)) s).
    destruct (installDome_frame data s0) as (_ & _ & -> & -> & _).
    destruct (installDome_objects data s0) as (Hm & Hl & Hp).
    by rewrite Hm, Hl, Hp.
Qed.

Lemma face_click_round_trip_witness :
  handle (click [overFace 1]) (run [gui_mode "tessellate"] (start triangle)) =
    (run [gui_mode "tessellate"] (start triangle),
     [fetch (faceselective
               (faceIndex (overFace 1))
               (cacheVertices (run [gui_mode "tessellate"] (start triangle)))
               (cacheIndices (run [gui_mode "tessellate"] (start triangle))))]) ∧
  cacheVertices (fst (handle (faceselective_response square)
                             (run [gui_mode "tessellate"] (start triangle))))
    = Some (vertices square).
Proof.
  destruct (face_click_round_trip (run [gui_mode "tessellate"] (start triangle))
              (overFace 1) [] square) as (Hreq & Hv & _);
    [vm_compute; reflexivity | vm_compute; reflexivity |].
  split; [exact Hreq | exact Hv].
Defined.

(** C4, as the claim states it: the pick state is cleared once a dome has
    been installed.  It is not: the pointer rests on face 0, the response of
    "reset dome" arrives, and [intersectedFace] still holds the hit on the
    old mesh. *)
Lemma pick_state_survives_reset :
  ¬ (let s := run [mousemove [overFace 1]; reset_response square]
                  (start triangle) in
     intersectedFace s = None ∧ intersectedPoint s = None).
Proof. intros [Hface _]. vm_compute in Hface. discriminate Hface. Qed.

(** C4, amended.  Installing a dome leaves both pick references exactly as
    they were, in each of the four continuations. *)
Theorem install_keeps_pick_state (data : MeshSnapshot) (s : State) :
  (intersectedFace (tesselate_then data s) = intersectedFace s ∧
   intersectedPoint (tesselate_then data s) = intersectedPoint s) ∧
  (intersectedFace (resetDome_then data s) = intersectedFace s ∧
   intersectedPoint (resetDome_then data s) = intersectedPoint s) ∧
  (intersectedFace (faceselective_then data s) = intersectedFace s ∧
   intersectedPoint (faceselective_then data s) = intersectedPoint s) ∧
  (intersectedFace (vertexselective_then data s) = intersectedFace s ∧
   intersectedPoint (vertexselective_then data s) = intersectedPoint s).
Proof.
  unfold tesselate_then, resetDome_then, faceselective_then,
    vertexselective_then.
  set (s0 := with_cache (Some (vertices data)) (Some (indices data)) s).
  destruct (installDome_frame data s) as (-> & -> & _).
  destruct (installDome_frame data s0) as (-> & -> & _).
  done.
Qed.

(** C5.  The claim: a move over the face that is already hot writes no
    colour.  The guard compares the stored intersection record with the
    scene object and always passes, so the face is painted white and red
    again: the colour attribute of the mesh is flagged for upload twice
    more.  When a point reference is still held, the same move also
    repaints that point: vertex 0, red from a search response, is blue after
    the pointer moved over the hot face once more. *)
Theorem hover_same_face_repaints :
  let s1 := run [mousemove [overFace 1]] (start triangle) in
  let s2 := run [mousemove [overFace 1]] s1 in
  let t1 := run [gui_showPoints true; mousemove [overItem 3 0];
                 mousemove [overFace 1]; search_response [0]]
                (start triangle) in
  let t2 := run [mousemove [overFace 1]] t1 in
  intersectedFace s1 = Some (overFace 1) ∧
  (version <$> colorsOf s1 1) = Some 1%nat ∧
  (version <$> colorsOf s2 1) = Some 3%nat ∧
  intersectedFace t1 = Some (overFace 1) ∧
  (colorsOf t1 3 ≫= λ c, Some (getXYZ c 0)) = Some (slots_of red) ∧
  (colorsOf t2 3 ≫= λ c, Some (getXYZ c 0)) = Some (slots_of pointBlue).
Proof. vm_compute. done. Qed.

(** C6.  The claim: a nearest hit on anything but the mesh or the points is
    handled like no hit.  With the wireframe shown and face 0 hot, a move
    whose nearest hit is the wireframe changes nothing, the face stays hot
    and red; a move with no hit clears the reference and repaints it. *)
Theorem wireframe_hit_is_ignored :
  let s := run [gui_showEdges true; mousemove [overFace 1]] (start triangle) in
  typeOf s 2 = "LineSegments" ∧
  onPointerMove [overItem 2 0; overFace 1] s = s ∧
  intersectedFace s = Some (overFace 1) ∧
  (colorsOf s 1 ≫= λ c, Some (getXYZ c 0)) = Some (slots_of red) ∧
  intersectedFace (onPointerMove [] s) = None ∧
  (colorsOf (onPointerMove [] s) 1 ≫= λ c, Some (getXYZ c 0))
    = Some (slots_of white).
Proof. vm_compute. done. Qed.




(** C8.  The claim: after a dome response the new surface is attached
    exactly when [showFaces] is set.  With "show faces" switched off the
    continuation attaches the new mesh all the same, next to the guarded
    [scene.add] calls for the wireframe and the points
    ([installDome_attached]). *)
Theorem hidden_faces_reattached :
  showFaces (params (run [gui_showFaces false] (start triangle))) = false ∧
  scene (run [gui_showFaces false] (start triangle)) = [0%nat] ∧
  showFaces (params (run [gui_showFaces false; reset_response square]
                         (start triangle))) = false ∧
  mesh (run [gui_showFaces false; reset_response square] (start triangle))
    = 4%nat ∧
  scene (run [gui_showFaces false; reset_response square] (start triangle))
    = [0%nat; 4%nat].
Proof. vm_compute. done. Qed.

(** C9.  A click whose nearest hit is a point cloud, in mode "search",
    issues one [search] request with the index of the hit and the configured
    distance.  When the response arrives, every vertex of the current point
    colours that the response names reads back red and every other vertex
    reads back what it held; the cache, the three layer references, the
    scene, every position and index buffer and every object other than the
    current points are as before. *)
Theorem search_click_highlights_named (s : State) (hit : Intersection)
    (rest : list Intersection) (found : list Z) (c : BufferAttribute) :
  typeOf s (object hit) = "Points" →
  mode (params s) = "search" →
  colorsOf s (points s) = Some c →
  handle (click (hit :: rest)) s =
    (s, [fetch (search (index hit) (searchDistance (params s)))]) ∧
  let s' := fst (handle (search_response found) s) in
  (∃ c', colorsOf s' (points s') = Some c' ∧
         ∀ j, has_vertex c j →
              getXYZ c' j = if decide (j ∈ found) then slots_of red
                            else getXYZ c j) ∧
  cacheVertices s' = cacheVertices s ∧
  cacheIndices s' = cacheIndices s ∧
  mesh s' = mesh s ∧ line s' = line s ∧ points s' = points s ∧
  scene s' = scene s ∧
  (∀ ref, (getPosition <$> deref s' ref) = (getPosition <$> deref s ref) ∧
          (getIndex <$> deref s' ref) = (getIndex <$> deref s ref)) ∧
  (∀ ref, ref ≠ points s → deref s' ref = deref s ref).
Proof.
  intros Htype Hmode Hc. split.
  { simpl. unfold onClick. rewrite Htype, Hmode. done. }
  simpl. rewrite search_then_modify. split_and!; try done.
  - exists (paintAll red found c). split.
    + change (points (modify (points s) (updColor (paintAll red found)) s))
        with (points s).
      by rewrite colorsOf_modify_eq, Hc.
    + intros j Hj. destruct (decide (j ∈ found)).
      * by apply paintAll_named.
      * by apply paintAll_unnamed.
  - intros ref. destruct (decide (points s = ref)) as [<-|Hne].
    + rewrite deref_modify_eq. destruct (deref s (points s)) as [o|]; [|done].
      simpl. by rewrite getPosition_updColor, getIndex_updColor.
    + by rewrite deref_modify_ne.
  - intros ref Hne. by rewrite deref_modify_ne.
Qed.

Lemma search_click_highlights_named_witness :
  handle (click [overItem 3 1]) (run [gui_mode "search"] (start square)) =
    (run [gui_mode "search"] (start square),
     [fetch (search (index (overItem 3 1))
                    (searchDistance
                       (params (run [gui_mode "search"] (start square)))))]) ∧
  ∃ c', colorsOf (fst (handle (search_response [1; 3])
                         (run [gui_mode "search"] (start square))))
                 (points (fst (handle (search_response [1; 3])
                                 (run [gui_mode "search"] (start square)))))
        = Some c' ∧
        getXYZ c' 1 = slots_of red ∧ getXYZ c' 2 = slots_of pointBlue.
Proof.
  destruct (search_click_highlights_named
              (run [gui_mode "search"] (start square)) (overItem 3 1) []
              [1; 3]
              (Float32BufferAttribute
                 (concat (replicate 4 [Color.r pointBlue; Color.g pointBlue;
                                       Color.b pointBlue]))))
    as (Hreq & (c' & Hc' & Hslots) & _);
    [vm_compute; reflexivity..|].
  split; [exact Hreq|].
  exists c'. split; [exact Hc'|]. split.
  - rewrite (Hslots 1) by (vm_compute; split; [discriminate | reflexivity]).
    reflexivity.
  - rewrite (Hslots 2) by (vm_compute; split; [discriminate | reflexivity]).
    vm_compute. reflexivity.
Defined.



(** * Further properties *)

(** ** The buffers of a dome *)

(** Induction over a list three entries at a time, as the loops of
    [createGeometry] and [createPoints] walk it. *)
Lemma triple_ind {A} (P : list A → Prop) :
  P [] → (∀ x, P [x]) → (∀ x y, P [x; y]) →
  (∀ x y z rest, P rest → P (x :: y :: z :: rest)) →
  ∀ l, P l.
Proof.
  intros Hnil Hone Htwo Hstep.
  assert (∀ l, P l ∧ (∀ x, P (x :: l)) ∧ (∀ x y, P (x :: y :: l))) as Hall.
  { induction l as [|w l (IH0 & IH1 & IH2)]; [by split_and!|].
    split_and!; [apply IH1 | intros x; apply IH2 |].
    intros x y. by apply Hstep. }
  intros l. apply Hall.
Qed.

Lemma scaled_complete (v : list float) : complete (scaled v).
Proof.
  induction v as [| | |x y z rest [n Hn]] using triple_ind;
    [by exists 0%nat | by exists 1%nat.. |].
  exists (S n). simpl. lia.
Qed.

Lemma colored_length (c : Color.t) (v : list float) :
  length (colored c v) = length (scaled v).
Proof.
  induction v as [| | |x y z rest IH] using triple_ind; try done.
  simpl. by rewrite IH.
Qed.

Lemma colored_uniform {A} (c : Color.t) (v : list A) : uniform c (colored c v).
Proof.
  induction v as [|x|x y|x y z rest IH] using triple_ind; intros j Hj.
  - simpl in Hj. lia.
  - destruct j; [done | simpl in Hj; lia].
  - destruct j; [done | simpl in Hj; lia].
  - destruct j as [|j]; [done|].
    replace (3 * S j)%nat with (S (S (S (3 * j)))) by lia.
    simpl. apply IH. simpl in Hj. lia.
Qed.

(** A vertex of a uniform array reads back as the colour. *)
Lemma uniform_getXYZ (c : Color.t) (attr : BufferAttribute) (j : Z) :
  uniform c (array attr) → has_vertex attr j → getXYZ attr j = slots_of c.
Proof.
  intros Huni [Hlo Hhi]. unfold getXYZ, slots_of, array_get.
  rewrite !decide_True by lia.
  destruct (Huni (Z.to_nat j)) as (Hr & Hg & Hb); [lia|].
  replace (Z.to_nat (j * 3 + 0)) with (3 * Z.to_nat j)%nat by lia.
  replace (Z.to_nat (j * 3 + 1)) with (3 * Z.to_nat j + 1)%nat by lia.
  replace (Z.to_nat (j * 3 + 2)) with (3 * Z.to_nat j + 2)%nat by lia.
  by rewrite Hr, Hg, Hb.
Qed.

(** X1.  Whatever snapshot [createMesh] is given, well formed or not, the
    position and colour arrays of the mesh have the same length, that length
    is a multiple of 3 and is not below the number of coordinates received,
    and every vertex reads back white. *)
Theorem createMesh_buffers (data : MeshSnapshot) :
  ∃ pos col,
    getPosition (createMesh data) = Some pos ∧
    getColor (createMesh data) = Some col ∧
    length (array col) = length (array pos) ∧
    complete (array pos) ∧
    (length (flat (vertices data)) ≤ length (array pos))%nat ∧
    ∀ j, has_vertex col j → getXYZ col j = slots_of white.
Proof.
  exists (Float32BufferAttribute (scaled (flat (vertices data)))),
         (Float32BufferAttribute (colored white (flat (vertices data)))).
  split_and!; [done | done | apply colored_length | apply scaled_complete | |].
  - simpl. generalize (flat (vertices data)).
    induction l as [| | |x y z rest IH] using triple_ind; simpl; lia.
  - intros j Hj. apply uniform_getXYZ; [apply colored_uniform | done].
Qed.





Lemma flat_JArr {A} (groups : list (list A)) : flat (JArr <$> groups) = concat groups.
Proof.
  unfold flat. induction groups as [|x groups IH]; simpl; [done|].
  by rewrite <- IH.
Qed.

Lemma flat_JNum {A} (l : list A) : flat (JNum <$> l) = l.
Proof.
  unfold flat. induction l as [|x l IH]; simpl; [done|].
  by rewrite <- IH at 2.
Qed.

(** X3.  A snapshot sent as nested arrays, one array per vertex and per
    face, builds the same mesh as the snapshot sent flat. *)
Theorem createMesh_nested_flat (vs : list (list float)) (fs : list (list Z)) :
  createMesh {| vertices := JArr <$> vs; indices := JArr <$> fs |}
  = createMesh {| vertices := JNum <$> concat vs;
                  indices := JNum <$> concat fs |}.
Proof.
  unfold createMesh, createGeometry. simpl.
  by rewrite !flat_JArr, !flat_JNum.
Qed.

(** ** The point cloud *)





(** ** Reset points *)





(** ** Pointer tracking, continued *)

(** X6.  A pointer move that hits nothing always leaves both pick
    references empty; when both were empty already it changes nothing at
    all, so a second such move is without effect. *)
Theorem hover_nothing_clears (s : State) :
  intersectedFace (onPointerMove [] s) = None ∧
  intersectedPoint (onPointerMove [] s) = None ∧
  (intersectedFace s = None → intersectedPoint s = None →
   onPointerMove [] s = s) ∧
  onPointerMove [] (onPointerMove [] s) = onPointerMove [] s.
Proof.
  destruct s as [h sc m l p [f|] [q|] cv ci pa]; split_and!;
    try done; intros; discriminate.
Qed.

Lemma paint_has_vertex (i j : Z) (c : Color.t) (attr : BufferAttribute) :
  has_vertex attr j → has_vertex (paint i c attr) j.
Proof. unfold has_vertex. by rewrite paint_length. Qed.

Lemma paintFace_length (f : Face.t) (c : Color.t) (attr : BufferAttribute) :
  length (array (paintFace f c attr)) = length (array attr).
Proof.
  unfold paintFace.
  change (array (needsUpdate ?x)) with (array x).
  by rewrite !paint_length.
Qed.

(** After the three writes of [highlightFace] each vertex of the face reads
    back the colour, also when two of them coincide. *)
Lemma paintFace_vertices (f : Face.t) (c : Color.t) (attr : BufferAttribute) :
  has_vertex attr (Face.a f) → has_vertex attr (Face.b f) →
  has_vertex attr (Face.c f) →
  getXYZ (paintFace f c attr) (Face.a f) = slots_of c ∧
  getXYZ (paintFace f c attr) (Face.b f) = slots_of c ∧
  getXYZ (paintFace f c attr) (Face.c f) = slots_of c.
Proof.
  intros Ha Hb Hc. unfold paintFace. rewrite !needsUpdate_getXYZ.
  assert (getXYZ (paint (Face.c f) c
                    (paint (Face.b f) c (paint (Face.a f) c attr))) (Face.c f)
          = slots_of c) as Hcc.
  { apply paint_same. by do 2 apply paint_has_vertex. }
  assert (getXYZ (paint (Face.b f) c (paint (Face.a f) c attr)) (Face.b f)
          = slots_of c) as Hbb.
  { apply paint_same. by apply paint_has_vertex. }
  split_and!; [| |exact Hcc].
  - destruct (decide (Face.c f = Face.a f)) as [Hca|Hca].
    { rewrite <- Hca at 2. exact Hcc. }
    rewrite paint_other by done.
    destruct (decide (Face.b f = Face.a f)) as [Hba|Hba].
    { rewrite <- Hba at 2. exact Hbb. }
    rewrite paint_other by done. by apply paint_same.
  - destruct (decide (Face.c f = Face.b f)) as [Hcb|Hcb].
    { rewrite <- Hcb at 2. exact Hcc. }
    rewrite paint_other by done. exact Hbb.
Qed.

Lemma colorLen_alter (f : BufferAttribute → BufferAttribute) (ref ref' : nat)
    (h : list Object3D) :
  (∀ attr, length (array (f attr)) = length (array attr)) →
  colorLen (alter (updColor f) ref h) ref' = colorLen h ref'.
Proof.
  intros Hf. unfold colorLen.
  destruct (decide (ref = ref')) as [->|Hne].
  - rewrite list_lookup_alter_eq. destruct (h !! ref') as [o|]; [|done].
    simpl. rewrite getColor_updColor.
    destruct (getColor o) as [c|]; [|done]. simpl. by rewrite Hf.
  - by rewrite list_lookup_alter_ne.
Qed.

Lemma needsUpdate_paint_length (i : Z) (c : Color.t) (attr : BufferAttribute) :
  length (array (needsUpdate (paint i c attr))) = length (array attr).
Proof. apply paint_length. Qed.

Ltac repaint_length :=
  intros; change (array (needsUpdate ?x)) with (array x);
  by rewrite !paint_length.

(** The heap after a move onto a mesh: the old highlights are repainted in
    some heap [h2] with the same colour arrays lengths, then the face is
    painted red. *)
Lemma onPointerMove_mesh_heap (hit : Intersection) (rest : list Intersection)
    (s : State) :
  typeOf s (object hit) = "Mesh" →
  ∃ h2,
    heap (onPointerMove (hit :: rest) s)
      = alter (updColor (paintFace (face hit) red)) (object hit) h2 ∧
    (∀ ref, colorLen h2 ref = colorLen (heap s) ref) ∧
    (intersectedFace s = None → intersectedPoint s = None → h2 = heap s).
Proof.
  intros Htype. unfold onPointerMove. rewrite Htype, differs_always.
  change (String.eqb "Mesh" "Mesh") with true. cbv iota. clear Htype.
  destruct s as [h sc m l p [f|] [q|] cv ci pa];
    (eexists; split_and!; [reflexivity| |]);
    cbn [heap truthy highlightFace highlightPoint modify with_heap
         with_intersectedFace with_intersectedPoint
         intersectedFace intersectedPoint];
    try (intros; discriminate); try done;
    intros ref; rewrite !colorLen_alter by repaint_length; done.
Qed.

Lemma onPointerMove_points_heap (hit : Intersection) (rest : list Intersection)
    (s : State) :
  typeOf s (object hit) = "Points" →
  ∃ h2,
    heap (onPointerMove (hit :: rest) s)
      = alter (updColor (λ attr, needsUpdate (paint (index hit) red attr)))
              (object hit) h2 ∧
    (∀ ref, colorLen h2 ref = colorLen (heap s) ref) ∧
    (intersectedFace s = None → intersectedPoint s = None → h2 = heap s).
Proof.
  intros Htype. unfold onPointerMove. rewrite Htype, differs_always.
  change (String.eqb "Points" "Mesh") with false.
  change (String.eqb "Points" "Points") with true. cbv iota. clear Htype.
  destruct s as [h sc m l p [f|] [q|] cv ci pa];
    (eexists; split_and!; [reflexivity| |]);
    cbn [heap truthy highlightFace highlightPoint modify with_heap
         with_intersectedFace with_intersectedPoint
         intersectedFace intersectedPoint];
    try (intros; discriminate); try done;
    intros ref; rewrite !colorLen_alter by repaint_length; done.
Qed.

(** A colour array of known length stays reachable, with that length, in
    any heap with the same colour array lengths. *)
Lemma colorLen_Some (h h2 : list Object3D) (ref : nat) (c : BufferAttribute) :
  (∀ ref, colorLen h2 ref = colorLen h ref) →
  h !! ref ≫= getColor = Some c →
  ∃ c2, h2 !! ref ≫= getColor = Some c2 ∧ length (array c2) = length (array c).
Proof.
  intros Hlen Hc. specialize (Hlen ref). unfold colorLen in Hlen.
  rewrite Hc in Hlen. destruct (h2 !! ref ≫= getColor) as [c2|]; [|done].
  exists c2. split; [done|]. by injection Hlen.
Qed.

Lemma colors_after_alter (f : BufferAttribute → BufferAttribute) (ref : nat)
    (h : list Object3D) :
  alter (updColor f) ref h !! ref ≫= getColor = f <$> (h !! ref ≫= getColor).
Proof.
  rewrite list_lookup_alter_eq. destruct (h !! ref) as [o|]; [|done].
  simpl. apply getColor_updColor.
Qed.

(** X7.  After a pointer move whose nearest hit is a mesh, the hit is the
    hot face and the three vertices of its face read back red in the colour
    array of that mesh, which keeps its length.  When nothing was hot
    before, every other vertex of the mesh keeps its colour and every other
    object is untouched. *)
Theorem hover_face_paints_red (s : State) (hit : Intersection)
    (rest : list Intersection) (c : BufferAttribute) :
  typeOf s (object hit) = "Mesh" →
  colorsOf s (object hit) = Some c →
  has_vertex c (Face.a (face hit)) →
  has_vertex c (Face.b (face hit)) →
  has_vertex c (Face.c (face hit)) →
  intersectedFace (onPointerMove (hit :: rest) s) = Some hit ∧
  ∃ c', colorsOf (onPointerMove (hit :: rest) s) (object hit) = Some c' ∧
        length (array c') = length (array c) ∧
        getXYZ c' (Face.a (face hit)) = slots_of red ∧
        getXYZ c' (Face.b (face hit)) = slots_of red ∧
        getXYZ c' (Face.c (face hit)) = slots_of red ∧
        (intersectedFace s = None → intersectedPoint s = None →
         (∀ j, j ≠ Face.a (face hit) → j ≠ Face.b (face hit) →
               j ≠ Face.c (face hit) → getXYZ c' j = getXYZ c j) ∧
         (∀ ref, ref ≠ object hit →
                 deref (onPointerMove (hit :: rest) s) ref = deref s ref)).
Proof.
  intros Htype Hc Ha Hb Hcc.
  split; [by apply onPointerMove_mesh|].
  destruct (onPointerMove_mesh_heap hit rest s Htype) as (h2 & Hheap & Hlen & Hidle).
  destruct (colorLen_Some (heap s) h2 (object hit) c Hlen Hc)
    as (c2 & Hc2 & Hlen2).
  exists (paintFace (face hit) red c2).
  assert (∀ j, has_vertex c j → has_vertex c2 j) as Hv.
  { intros j. unfold has_vertex. by rewrite Hlen2. }
  destruct (paintFace_vertices (face hit) red c2) as (Hra & Hrb & Hrc);
    [by apply Hv..|].
  split_and!; [| by rewrite paintFace_length | done..|].
  - unfold colorsOf, deref. by rewrite Hheap, colors_after_alter, Hc2.
  - intros HF HP. specialize (Hidle HF HP). subst h2.
    unfold colorsOf, deref in Hc. rewrite Hc in Hc2. injection Hc2 as <-.
    split.
    + intros j Hja Hjb Hjc. unfold paintFace.
      rewrite needsUpdate_getXYZ. by rewrite !paint_other.
    + intros ref Hne. unfold deref. rewrite Hheap.
      by apply list_lookup_alter_ne.
Qed.

Lemma hover_face_paints_red_witness :
  intersectedFace (onPointerMove [overFace 1] (start triangle))
    = Some (overFace 1) ∧
  ∃ c', colorsOf (onPointerMove [overFace 1] (start triangle)) 1 = Some c' ∧
        getXYZ c' 2 = slots_of red.
Proof.
  destruct (hover_face_paints_red (start triangle) (overFace 1) []
              (Float32BufferAttribute (replicate 9 1%float)))
    as (Hhot & c' & Hc' & _ & _ & _ & Hred & _);
    [vm_compute; reflexivity | vm_compute; reflexivity
     | vm_compute; split; [discriminate | reflexivity]..|].
  split; [exact Hhot|]. exists c'. split; [exact Hc' | exact Hred].
Defined.

(** X8.  After a pointer move whose nearest hit is a point cloud, the hit is
    the hot point and its vertex reads back red in the colour array of that
    point cloud, which keeps its length.  When nothing was hot before, every
    other vertex keeps its colour and every other object is untouched. *)
Theorem hover_point_paints_red (s : State) (hit : Intersection)
    (rest : list Intersection) (c : BufferAttribute) :
  typeOf s (object hit) = "Points" →
  colorsOf s (object hit) = Some c →
  has_vertex c (index hit) →
  intersectedPoint (onPointerMove (hit :: rest) s) = Some hit ∧
  ∃ c', colorsOf (onPointerMove (hit :: rest) s) (object hit) = Some c' ∧
        length (array c') = length (array c) ∧
        getXYZ c' (index hit) = slots_of red ∧
        (intersectedFace s = None → intersectedPoint s = None →
         (∀ j, j ≠ index hit → getXYZ c' j = getXYZ c j) ∧
         (∀ ref, ref ≠ object hit →
                 deref (onPointerMove (hit :: rest) s) ref = deref s ref)).
Proof.
  intros Htype Hc Hi.
  split; [by apply onPointerMove_points|].
  destruct (onPointerMove_points_heap hit rest s Htype)
    as (h2 & Hheap & Hlen & Hidle).
  destruct (colorLen_Some (heap s) h2 (object hit) c Hlen Hc)
    as (c2 & Hc2 & Hlen2).
  exists (needsUpdate (paint (index hit) red c2)).
  split_and!.
  - unfold colorsOf, deref. by rewrite Hheap, colors_after_alter, Hc2.
  - by rewrite needsUpdate_paint_length.
  - rewrite needsUpdate_getXYZ. apply paint_same.
    unfold has_vertex. by rewrite Hlen2.
  - intros HF HP. specialize (Hidle HF HP). subst h2.
    unfold colorsOf, deref in Hc. rewrite Hc in Hc2. injection Hc2 as <-.
    split.
    + intros j Hj. rewrite needsUpdate_getXYZ. by rewrite paint_other.
    + intros ref Hne. unfold deref. rewrite Hheap.
      by apply list_lookup_alter_ne.
Qed.

Lemma hover_point_paints_red_witness :
  intersectedPoint (onPointerMove [overItem 3 2] (start triangle))
    = Some (overItem 3 2) ∧
  ∃ c', colorsOf (onPointerMove [overItem 3 2] (start triangle)) 3 = Some c' ∧
        getXYZ c' (index (overItem 3 2)) = slots_of red.
Proof.
  destruct (hover_point_paints_red (start triangle) (overItem 3 2) []
              (Float32BufferAttribute
                 (concat (replicate 3 [Color.r pointBlue; Color.g pointBlue;
                                       Color.b pointBlue]))))
    as (Hhot & c' & Hc' & _ & Hred & _);
    [vm_compute; reflexivity | vm_compute; reflexivity
     | vm_compute; split; [discriminate | reflexivity] |].
  split; [exact Hhot|]. exists c'. split; [exact Hc' | exact Hred].
Defined.

(** ** What only colours change *)

Lemma blank_updColor (f : BufferAttribute → BufferAttribute) (o : Object3D) :
  blank (updColor f o) = blank o.
Proof. unfold blank. by rewrite updColor_updColor. Qed.

Lemma blank_type (o : Object3D) : type (blank o) = type o.
Proof. apply type_updColor. Qed.

Lemma blank_material (o : Object3D) : material (blank o) = material o.
Proof. by destruct o as [t [i p c d| |] m]. Qed.

Lemma blank_alter (f : BufferAttribute → BufferAttribute) (ref : nat)
    (h : list Object3D) :
  blank <$> alter (updColor f) ref h = blank <$> h.
Proof.
  apply list_eq. intros i. rewrite !list_lookup_fmap.
  destruct (decide (ref = i)) as [->|Hne].
  - rewrite list_lookup_alter_eq. destruct (h !! i) as [o|]; [|done].
    simpl. by rewrite blank_updColor.
  - by rewrite list_lookup_alter_ne.
Qed.

Lemma recolored_refl (s : State) : recolored s s.
Proof. by repeat split. Qed.

Lemma recolored_trans (s1 s2 s3 : State) :
  recolored s1 s2 → recolored s2 s3 → recolored s1 s3.
Proof.
  intros (H1 & H2 & H3 & H4 & H5 & H6 & H7 & H8)
         (K1 & K2 & K3 & K4 & K5 & K6 & K7 & K8).
  unfold recolored. by rewrite K1, K2, K3, K4, K5, K6, K7, K8.
Qed.

Lemma recolored_modify (ref : nat) (f : BufferAttribute → BufferAttribute)
    (s : State) :
  recolored s (modify ref (updColor f) s).
Proof. split; [apply blank_alter | by repeat split]. Qed.

Lemma recolored_highlightFace (c : Color.t) (s : State) :
  recolored s (highlightFace c s).
Proof.
  unfold highlightFace. destruct (intersectedFace s);
    [apply recolored_modify | apply recolored_refl].
Qed.

Lemma recolored_highlightPoint (c : Color.t) (s : State) :
  recolored s (highlightPoint c s).
Proof.
  unfold highlightPoint. destruct (intersectedPoint s);
    [apply recolored_modify | apply recolored_refl].
Qed.

Lemma recolored_onPointerMove (objects : list Intersection) (s : State) :
  recolored s (onPointerMove objects s).
Proof.
  assert (∀ t, recolored t
            (if truthy (intersectedFace t) then highlightFace white t else t))
    as Hface.
  { intros t. destruct (truthy _);
      [apply recolored_highlightFace | apply recolored_refl]. }
  assert (∀ t, recolored t
            (if truthy (intersectedPoint t) then highlightPoint pointBlue t
             else t)) as Hpoint.
  { intros t. destruct (truthy _);
      [apply recolored_highlightPoint | apply recolored_refl]. }
  unfold onPointerMove. destruct objects as [|hit rest].
  - eapply recolored_trans; [apply Hface|].
    eapply recolored_trans; [apply Hpoint|]. by repeat split.
  - destruct (String.eqb _ "Mesh");
      [|destruct (String.eqb _ "Points"); [|apply recolored_refl]];
      (destruct (differs _ _); [|apply recolored_refl]).
    + eapply recolored_trans; [apply Hface|].
      eapply recolored_trans; [apply Hpoint|].
      eapply recolored_trans; [|apply recolored_highlightFace].
      by repeat split.
    + eapply recolored_trans; [apply Hpoint|].
      eapply recolored_trans; [apply Hface|].
      eapply recolored_trans; [|apply recolored_highlightPoint].
      by repeat split.
Qed.

(** What a recolouring cannot change, read through any reference. *)
Lemma recolored_deref (s s' : State) (ref : nat) :
  recolored s s' →
  typeOf s' ref = typeOf s ref ∧
  (material <$> deref s' ref) = (material <$> deref s ref) ∧
  (getPosition <$> deref s' ref) = (getPosition <$> deref s ref) ∧
  (getIndex <$> deref s' ref) = (getIndex <$> deref s ref) ∧
  length (heap s') = length (heap s).
Proof.
  intros (Hblank & _).
  assert (blank <$> deref s' ref = blank <$> deref s ref) as Hb.
  { unfold deref. by rewrite <- !list_lookup_fmap, Hblank. }
  assert (length (heap s') = length (heap s)) as Hlen.
  { by rewrite <- (length_fmap blank (heap s')), Hblank, length_fmap. }
  unfold typeOf.
  destruct (deref s' ref) as [o'|], (deref s ref) as [o|];
    simpl in Hb; try discriminate Hb; [|done].
  injection Hb as Hb. simpl.
  rewrite <- (blank_type o'), <- (blank_material o'),
    <- (getPosition_updColor (λ _, {| array := []; version := 0 |}) o'),
    <- (getIndex_updColor (λ _, {| array := []; version := 0 |}) o').
  fold (blank o'). rewrite Hb. unfold blank.
  by rewrite type_updColor, getPosition_updColor, getIndex_updColor,
    <- (blank_material o).
Qed.

(** X9.  Pointer tracking, the highlighting of a search response and
    "reset points" write colour arrays and nothing else: after any of them
    every object has the type, material, position buffer and index buffer it
    had, no object was created, and the scene, the three layer references,
    the cache and the panel settings are as before. *)
Theorem only_colours_change (s : State) :
  (∀ objects, recolored s (onPointerMove objects s)) ∧
  (∀ found, recolored s (search_then found s)) ∧
  recolored s (resetPoints s) ∧
  ∀ s', recolored s s' →
    scene s' = scene s ∧ mesh s' = mesh s ∧ line s' = line s ∧
    points s' = points s ∧ params s' = params s ∧
    cacheVertices s' = cacheVertices s ∧ cacheIndices s' = cacheIndices s ∧
    length (heap s') = length (heap s) ∧
    ∀ ref, typeOf s' ref = typeOf s ref ∧
           (material <$> deref s' ref) = (material <$> deref s ref) ∧
           (getPosition <$> deref s' ref) = (getPosition <$> deref s ref) ∧
           (getIndex <$> deref s' ref) = (getIndex <$> deref s ref).
Proof.
  split_and!.
  - intros objects. apply recolored_onPointerMove.
  - intros found. rewrite search_then_modify. apply recolored_modify.
  - apply recolored_modify.
  - intros s' Hrec.
    pose proof Hrec as (_ & -> & -> & -> & -> & -> & -> & ->).
    split_and!; try done.
    + by destruct (recolored_deref s s' 0 Hrec) as (_ & _ & _ & _ & ->).
    + intros ref.
      by destruct (recolored_deref s s' ref Hrec) as (-> & -> & -> & -> & _).
Qed.

(** ** The state the script keeps *)

Lemma consistent_start (data : MeshSnapshot) : consistent (start data).
Proof.
  split; try done.
  - intros ref Href. simpl in Href.
    apply elem_of_cons in Href as [->|Href]; [by left|].
    apply elem_of_cons in Href as [->|Href]; [by right; left|].
    by apply elem_of_nil in Href.
  - simpl. apply NoDup_cons. split.
    + intros Hin. apply list_elem_of_singleton in Hin. discriminate Hin.
    + apply NoDup_singleton.
  - simpl. by left.
  - simpl. split; [|discriminate]. intros Hin.
    apply elem_of_cons in Hin as [Hin|Hin]; [discriminate Hin|].
    apply list_elem_of_singleton in Hin. discriminate Hin.
  - simpl. split; [|discriminate]. intros Hin.
    apply elem_of_cons in Hin as [Hin|Hin]; [discriminate Hin|].
    apply list_elem_of_singleton in Hin. discriminate Hin.
  - intros _. simpl. right. by left.
Qed.

(** The three layers and the camera are four different objects. *)
Lemma consistent_distinct (s : State) :
  consistent s →
  mesh s ≠ line s ∧ mesh s ≠ points s ∧ line s ≠ points s ∧
  mesh s ≠ 0%nat ∧ line s ≠ 0%nat ∧ points s ≠ 0%nat.
Proof.
  intros [Hm Hl Hp Hc _ _ _ _ _ _ _].
  split_and!; intros Heq; rewrite Heq in *; congruence.
Qed.

(** The three layers and the camera are allocated. *)
Lemma typeOf_allocated (s : State) (ref : nat) :
  typeOf s ref ≠ "" → (ref < length (heap s))%nat.
Proof.
  unfold typeOf, deref. intros Htype.
  destruct (heap s !! ref) as [o|] eqn:Hlook; [|done].
  by apply lookup_lt_Some in Hlook.
Qed.

Lemma consistent_allocated (s : State) :
  consistent s →
  scene_allocated s ∧ (mesh s < length (heap s))%nat ∧
  (line s < length (heap s))%nat ∧ (points s < length (heap s))%nat.
Proof.
  intros Hs. pose proof Hs as [Hm Hl Hp Hc Hsc _ _ _ _ _ _].
  assert (mesh s < length (heap s))%nat
    by (apply typeOf_allocated; by rewrite Hm).
  assert (line s < length (heap s))%nat
    by (apply typeOf_allocated; by rewrite Hl).
  assert (points s < length (heap s))%nat
    by (apply typeOf_allocated; by rewrite Hp).
  assert (0 < length (heap s))%nat
    by (apply typeOf_allocated; by rewrite Hc).
  split_and!; try done.
  intros ref Href. destruct (Hsc ref Href) as [-> | [-> | [-> | ->] ] ]; done.
Qed.

Lemma consistent_recolored (s s' : State) :
  consistent s → recolored s s' → consistent s'.
Proof.
  intros [Hm Hl Hp Hc Hsc Hnd Hca He Hpt Hf Hsz] Hrec.
  pose proof Hrec as (_ & Hscene & Hmesh & Hline & Hpoints & _ & _ & Hparams).
  pose proof (λ ref, proj1 (recolored_deref s s' ref Hrec)) as Htype.
  pose proof (λ ref, proj1 (proj2 (recolored_deref s s' ref Hrec))) as Hmat.
  split; rewrite ?Hscene, ?Hmesh, ?Hline, ?Hpoints, ?Hparams, ?Htype, ?Hmat;
    done.
Qed.

(** A change of the panel that keeps the three toggles and the point size. *)
Lemma consistent_params (p : Params) (s : State) :
  consistent s →
  showEdges p = showEdges (params s) →
  showFaces p = showFaces (params s) →
  showPoints p = showPoints (params s) →
  pointSize p = pointSize (params s) →
  consistent (with_params p s).
Proof.
  intros [Hm Hl Hp Hc Hsc Hnd Hca He Hpt Hf Hsz] Ke Kf Kp Ks.
  split; try done; simpl; by rewrite ?Ke, ?Kf, ?Kp, ?Ks.
Qed.

Lemma consistent_cache (v : option (list (jitem float)))
    (i : option (list (jitem Z))) (s : State) :
  consistent s → consistent (with_cache v i s).
Proof. intros [Hm Hl Hp Hc Hsc Hnd Hca He Hpt Hf Hsz]. by split. Qed.

Lemma elem_scene_add (x ref : nat) (s : State) :
  x ∈ scene (scene_add ref s) ↔ x = ref ∨ x ∈ scene s.
Proof.
  unfold scene_add. simpl.
  rewrite elem_of_app, list_elem_of_filter, list_elem_of_singleton.
  destruct (decide (x = ref)); tauto.
Qed.

Lemma elem_scene_remove (x ref : nat) (s : State) :
  x ∈ scene (scene_remove ref s) ↔ x ≠ ref ∧ x ∈ scene s.
Proof. unfold scene_remove. simpl. by rewrite list_elem_of_filter. Qed.

Lemma NoDup_scene_add (ref : nat) (s : State) :
  NoDup (scene s) → NoDup (scene (scene_add ref s)).
Proof.
  intros Hnd. unfold scene_add. simpl. apply NoDup_app. split_and!.
  - by apply NoDup_filter.
  - intros x Hx Hin. apply list_elem_of_filter in Hx as [Hne _].
    by apply list_elem_of_singleton in Hin.
  - apply NoDup_singleton.
Qed.

Lemma NoDup_scene_remove (ref : nat) (s : State) :
  NoDup (scene s) → NoDup (scene (scene_remove ref s)).
Proof. intros Hnd. unfold scene_remove. simpl. by apply NoDup_filter. Qed.

Lemma consistent_showPoints (value : bool) (s : State) :
  consistent s → consistent (showPoints_onChange value s).
Proof.
  intros Hs. destruct (consistent_distinct s Hs) as (? & ? & ? & ? & ? & ?).
  destruct Hs as [Hm Hl Hp Hc Hsc Hnd Hca He Hpt Hf Hsz].
  unfold showPoints_onChange. destruct value; split; try done;
    cbn [params with_params showEdges showFaces showPoints pointSize
         set_showPoints mesh line points scene_add scene_remove with_scene];
    try (by apply (NoDup_scene_add (points s) s));
    try (by apply (NoDup_scene_remove (points s) s));
    repeat (setoid_rewrite (elem_scene_add _ (points s) s)
            || setoid_rewrite (elem_scene_remove _ (points s) s));
    intuition (subst; auto; congruence).
Qed.

Lemma consistent_showEdges (value : bool) (s : State) :
  consistent s → consistent (showEdges_onChange value s).
Proof.
  intros Hs. destruct (consistent_distinct s Hs) as (? & ? & ? & ? & ? & ?).
  destruct Hs as [Hm Hl Hp Hc Hsc Hnd Hca He Hpt Hf Hsz].
  unfold showEdges_onChange. destruct value; split; try done;
    cbn [params with_params showEdges showFaces showPoints pointSize
         set_showEdges mesh line points scene_add scene_remove with_scene];
    try (by apply (NoDup_scene_add (line s) s));
    try (by apply (NoDup_scene_remove (line s) s));
    repeat (setoid_rewrite (elem_scene_add _ (line s) s)
            || setoid_rewrite (elem_scene_remove _ (line s) s));
    intuition (subst; auto; congruence).
Qed.

Lemma consistent_showFaces (value : bool) (s : State) :
  consistent s → consistent (showFaces_onChange value s).
Proof.
  intros Hs. destruct (consistent_distinct s Hs) as (? & ? & ? & ? & ? & ?).
  destruct Hs as [Hm Hl Hp Hc Hsc Hnd Hca He Hpt Hf Hsz].
  unfold showFaces_onChange. destruct value; split; try done;
    cbn [params with_params showEdges showFaces showPoints pointSize
         set_showFaces mesh line points scene_add scene_remove with_scene];
    try (by apply (NoDup_scene_add (mesh s) s));
    try (by apply (NoDup_scene_remove (mesh s) s));
    repeat (setoid_rewrite (elem_scene_add _ (mesh s) s)
            || setoid_rewrite (elem_scene_remove _ (mesh s) s));
    intuition (subst; auto; congruence).
Qed.

Lemma typeOf_modify_setSize (ref ref' : nat) (value : float) (s : State) :
  typeOf (modify ref (setSize value) s) ref' = typeOf s ref'.
Proof.
  unfold typeOf. destruct (decide (ref = ref')) as [->|Hne].
  - rewrite deref_modify_eq. by destruct (deref s ref').
  - by rewrite deref_modify_ne.
Qed.

Lemma consistent_pointSize (value : float) (s : State) :
  consistent s → consistent (pointSize_onChange value s).
Proof.
  intros [Hm Hl Hp Hc Hsc Hnd Hca He Hpt Hf Hsz].
  unfold pointSize_onChange. split; rewrite ?typeOf_modify_setSize; try done.
  cbn [points modify with_heap with_params params pointSize set_pointSize].
  rewrite deref_modify_eq.
  change (deref (with_params _ s) (points s)) with (deref s (points s)).
  destruct (deref s (points s)) as [o|]; [|done].
  simpl in Hsz. injection Hsz as Hsz. simpl. by rewrite Hsz.
Qed.

Lemma filter_all (P : nat → Prop) `{∀ x, Decision (P x)} (l : list nat) :
  (∀ x, x ∈ l → P x) → filter P l = l.
Proof.
  induction l as [|x l IH]; intros Hall; [done|].
  rewrite filter_cons, decide_True by (apply Hall; by left).
  f_equal. apply IH. intros y Hy. apply Hall. by right.
Qed.

(** A list without repetition whose only possible element is [a], and which
    holds [a], is [[a]]. *)
Lemma NoDup_only {A} (a : A) (l : list A) :
  NoDup l → (∀ x, x ∈ l → x = a) → a ∈ l → l = [a].
Proof.
  intros Hnd Hall Hin. destruct l as [|x l]; [by apply elem_of_nil in Hin|].
  assert (x = a) as -> by (apply Hall; by left).
  f_equal. destruct l as [|y l]; [done|].
  assert (y = a) as -> by (apply Hall; right; by left).
  apply NoDup_cons in Hnd as [Hnotin _]. exfalso. apply Hnotin. by left.
Qed.

Lemma installDome_scene (data : MeshSnapshot) (s : State) :
  scene_allocated s →
  scene (installDome data s) =
    (filter (λ x, x ≠ points s)
       (filter (λ x, x ≠ line s) (filter (λ x, x ≠ mesh s) (scene s)))
     ++ [length (heap s)]
     ++ (if showEdges (params s) then [S (length (heap s))] else [])
     ++ (if showPoints (params s) then [S (S (length (heap s)))] else []))%list.
Proof.
  unfold scene_allocated.
  installDome_cases s; rewrite ?length_app, ?length_alter; simpl;
    intros Hwf.
  all: set (old := filter (λ x, x ≠ p)
                     (filter (λ x, x ≠ l) (filter (λ x, x ≠ m) sc))).
  all: assert (∀ x, x ∈ old → (x < length h)%nat) as Hold
    by (intros x Hx; subst old;
        repeat (apply list_elem_of_filter in Hx as [_ Hx]); by apply Hwf).
  all: rewrite ?filter_app;
       repeat (rewrite (filter_all _ old)
                 by (intros x Hx; apply Hold in Hx; lia));
       repeat (rewrite filter_cons, decide_True by lia);
       rewrite ?filter_nil, <- ?app_assoc; simpl;
       repeat f_equal; lia.
Qed.

(** After a dome was installed the scene holds the camera, the new mesh,
    then the new wireframe and the new points when their toggles are set. *)
Lemma installDome_scene_exact (data : MeshSnapshot) (s : State) :
  consistent s →
  scene (installDome data s) =
    ([0%nat; length (heap s)]
     ++ (if showEdges (params s) then [S (length (heap s))] else [])
     ++ (if showPoints (params s) then [S (S (length (heap s)))] else []))%list.
Proof.
  intros Hs. destruct (consistent_allocated s Hs) as (Halloc & _).
  destruct (consistent_distinct s Hs) as (_ & _ & _ & Hm0 & Hl0 & Hp0).
  rewrite installDome_scene by done.
  destruct Hs as [_ _ _ _ Hsc Hnd Hca _ _ _ _].
  rewrite (NoDup_only 0%nat (filter _ (filter _ (filter _ (scene s))))).
  - done.
  - by do 3 apply NoDup_filter.
  - intros x Hx.
    apply list_elem_of_filter in Hx as [Hxp Hx].
    apply list_elem_of_filter in Hx as [Hxl Hx].
    apply list_elem_of_filter in Hx as [Hxm Hx].
    destruct (Hsc x Hx) as [-> | [-> | [-> | ->] ] ]; done.
  - repeat (apply list_elem_of_filter; split; [by apply not_eq_sym|]). done.
Qed.

(** What became of the objects that existed before a dome was installed:
    the three old layers are disposed of, every other object is as it was. *)
Lemma installDome_old (data : MeshSnapshot) (s : State) (ref : nat) :
  consistent s →
  (ref < length (heap s))%nat →
  deref (installDome data s) ref =
    (if decide (ref = mesh s ∨ ref = line s ∨ ref = points s)
     then dispose <$> deref s ref else deref s ref).
Proof.
  intros Hs Href.
  destruct (consistent_distinct s Hs) as (Hml & Hmp & Hlp & _).
  unfold deref. rewrite installDome_heap.
  rewrite lookup_app_l by (by rewrite retired_length).
  unfold retired. case_decide as Hcase.
  - destruct Hcase as [-> | [-> | ->] ].
    + rewrite list_lookup_alter_ne by done.
      rewrite list_lookup_alter_ne by done.
      apply list_lookup_alter_eq.
    + rewrite list_lookup_alter_ne by done.
      rewrite list_lookup_alter_eq.
      by rewrite list_lookup_alter_ne by done.
    + rewrite list_lookup_alter_eq.
      rewrite list_lookup_alter_ne by done.
      by rewrite list_lookup_alter_ne by done.
  - rewrite !list_lookup_alter_ne by (intros Heq; apply Hcase; rewrite <- Heq; tauto).
    done.
Qed.

Lemma consistent_installDome (data : MeshSnapshot) (s : State) :
  consistent s → consistent (installDome data s).
Proof.
  intros Hs.
  pose proof (installDome_scene_exact data s Hs) as Hscene.
  destruct (consistent_allocated s Hs) as (_ & Hma & Hla & Hpa).
  destruct (consistent_distinct s Hs) as (_ & _ & _ & Hm0 & Hl0 & Hp0).
  assert (0 < length (heap s))%nat as Hpos by lia.
  destruct (installDome_layers data s) as (Hm & Hl & Hp).
  destruct (installDome_objects data s) as (Hom & Hol & Hop).
  cbv zeta in Hom, Hol, Hop.
  destruct (installDome_frame data s) as (_ & _ & _ & _ & Hparams).
  split; rewrite ?Hparams.
  - unfold typeOf. by rewrite Hom.
  - unfold typeOf. by rewrite Hol.
  - unfold typeOf. by rewrite Hop.
  - unfold typeOf. rewrite installDome_old by done.
    rewrite decide_False by (intros [? | [? | ?] ]; by symmetry in H).
    by destruct Hs.
  - intros ref. rewrite Hscene, Hm, Hl, Hp.
    destruct (showEdges (params s)), (showPoints (params s)); simpl;
      rewrite ?elem_of_cons, ?elem_of_nil; tauto.
  - rewrite Hscene.
    destruct (showEdges (params s)), (showPoints (params s)); simpl;
      repeat (apply NoDup_cons; split;
              [rewrite ?elem_of_cons, ?elem_of_nil; lia|]);
      apply NoDup_nil_2.
  - rewrite Hscene. by left.
  - rewrite Hscene, Hl.
    destruct (showEdges (params s)), (showPoints (params s)); simpl;
      rewrite ?elem_of_cons, ?elem_of_nil;
      (split; [intros; try done; lia | intros; try discriminate; lia]).
  - rewrite Hscene, Hp.
    destruct (showEdges (params s)), (showPoints (params s)); simpl;
      rewrite ?elem_of_cons, ?elem_of_nil;
      (split; [intros; try done; lia | intros; try discriminate; lia]).
  - intros _. rewrite Hscene, Hm. right. by left.
  - by rewrite Hop.
Qed.

(** Every handler keeps the state consistent. *)
Lemma consistent_handle (e : Event) (s : State) :
  consistent s → consistent (fst (handle e s)).
Proof.
  intros Hs. destruct e; cbn [handle fst]; try done.
  - eapply consistent_recolored; [done | apply recolored_onPointerMove].
  - eapply consistent_recolored; [done | apply recolored_modify].
  - by apply consistent_params.
  - by apply consistent_params.
  - by apply consistent_pointSize.
  - by apply consistent_showPoints.
  - by apply consistent_showEdges.
  - by apply consistent_showFaces.
  - by apply consistent_params.
  - by apply consistent_params.
  - by apply consistent_installDome.
  - by apply consistent_installDome.
  - by apply consistent_installDome, consistent_cache.
  - by apply consistent_installDome, consistent_cache.
  - eapply consistent_recolored; [done|].
    rewrite search_then_modify. apply recolored_modify.
Qed.

Lemma consistent_run (events : list Event) (s : State) :
  consistent s → consistent (run events s).
Proof.
  revert s. induction events as [|e events IH]; intros s Hs; [done|].
  simpl. by apply IH, consistent_handle.
Qed.

(** X10.  In every state the script can reach, [mesh], [line] and [points]
    refer to a mesh, a wireframe and a point cloud, and the scene holds the
    camera and nothing but the camera and these three current layers, each
    at most once: a dome that was replaced is never left attached. *)
Theorem reachable_scene (data : MeshSnapshot) (events : list Event) :
  typeOf (run events (start data)) (mesh (run events (start data))) = "Mesh" ∧
  typeOf (run events (start data)) (line (run events (start data)))
    = "LineSegments" ∧
  typeOf (run events (start data)) (points (run events (start data)))
    = "Points" ∧
  0%nat ∈ scene (run events (start data)) ∧
  NoDup (scene (run events (start data))) ∧
  ∀ ref, ref ∈ scene (run events (start data)) →
    ref = 0%nat ∨ ref = mesh (run events (start data)) ∨
    ref = line (run events (start data)) ∨
    ref = points (run events (start data)).
Proof.
  by destruct (consistent_run events (start data) (consistent_start data)).
Qed.


(** X12.  In every state the script can reach, the size of the current
    points is the configured point size. *)
Theorem reachable_point_size (data : MeshSnapshot) (events : list Event) :
  (material <$> deref (run events (start data))
                      (points (run events (start data))))
  = Some (PointsMaterial (pointSize (params (run events (start data))))).
Proof.
  by destruct (consistent_run events (start data) (consistent_start data)).
Qed.

(** X13.  When a dome response arrives in a state the script can reach, the
    scene afterwards is the camera, the new mesh, then the new wireframe if
    "show edges" is set and the new points if "show points" is set; three
    objects were created; the three old layers are disposed of and every
    other object is as it was. *)
Theorem install_replaces_layers (data : MeshSnapshot) (events : list Event)
    (d : MeshSnapshot) :
  scene (installDome d (run events (start data))) =
    ([0%nat; mesh (installDome d (run events (start data)))]
     ++ (if showEdges (params (run events (start data)))
         then [line (installDome d (run events (start data)))] else [])
     ++ (if showPoints (params (run events (start data)))
         then [points (installDome d (run events (start data)))] else []))%list ∧
  length (heap (installDome d (run events (start data))))
    = (length (heap (run events (start data))) + 3)%nat ∧
  ∀ ref, (ref < length (heap (run events (start data))))%nat →
    deref (installDome d (run events (start data))) ref =
      (if decide (ref = mesh (run events (start data)) ∨
                  ref = line (run events (start data)) ∨
                  ref = points (run events (start data)))
       then dispose <$> deref (run events (start data)) ref
       else deref (run events (start data)) ref).
Proof.
  pose proof (consistent_run events (start data) (consistent_start data)) as Hs.
  set (s := run events (start data)) in *.
  destruct (installDome_layers d s) as (-> & -> & ->).
  split_and!.
  - by apply installDome_scene_exact.
  - rewrite installDome_heap, length_app, retired_length. simpl. lia.
  - intros ref Href. by apply installDome_old.
Qed.

(** ** Cache and display over a run *)

Lemma face_response_cache (data : MeshSnapshot) (s : State) :
  cacheVertices (fst (handle (faceselective_response data) s))
    = Some (vertices data) ∧
  cacheIndices (fst (handle (faceselective_response data) s))
    = Some (indices data).
Proof.
  cbn [handle fst]. unfold faceselective_then.
  set (s0 := with_cache (Some (vertices data)) (Some (indices data)) s).
  destruct (installDome_frame data s0) as (_ & _ & -> & -> & _).
  split; reflexivity.
Qed.

Lemma vertex_response_cache (data : MeshSnapshot) (s : State) :
  cacheVertices (fst (handle (vertexselective_response data) s))
    = Some (vertices data) ∧
  cacheIndices (fst (handle (vertexselective_response data) s))
    = Some (indices data).
Proof.
  cbn [handle fst]. unfold vertexselective_then.
  set (s0 := with_cache (Some (vertices data)) (Some (indices data)) s).
  destruct (installDome_frame data s0) as (_ & _ & -> & -> & _).
  split; reflexivity.
Qed.

Lemma run_cons (e : Event) (events : list Event) (s : State) :
  run (e :: events) s = run events (fst (handle e s)).
Proof. reflexivity. Qed.

Lemma run_last_selective (events : list Event) (s : State)
    (init : option MeshSnapshot) :
  cacheVertices s = vertices <$> init →
  cacheIndices s = indices <$> init →
  cacheVertices (run events s) = vertices <$> last_selective events init ∧
  cacheIndices (run events s) = indices <$> last_selective events init.
Proof.
  revert s init. induction events as [|e events IH]; intros s init Hv Hi;
    [by split|].
  rewrite run_cons.
  destruct (writes_cache e) eqn:He.
  - destruct e; try discriminate He.
    + change (last_selective (faceselective_response data :: events) init)
        with (last_selective events (Some data)).
      apply IH; apply face_response_cache.
    + change (last_selective (vertexselective_response data :: events) init)
        with (last_selective events (Some data)).
      apply IH; apply vertex_response_cache.
  - destruct (handle_cache e s He) as [Hv' Hi'].
    assert (last_selective (e :: events) init = last_selective events init)
      as -> by (destruct e; first [discriminate He | reflexivity]).
    apply IH; [by rewrite Hv' | by rewrite Hi'].
Qed.

(** X14.  Over any run of events the cache holds the vertices and indices
    of the last response to a selective request ([faceselective] or
    [vertexselective]) that arrived, in arrival order, and is [null] while
    none has arrived; bulk responses, pointer moves, clicks and panel
    changes never alter it. *)
Theorem cache_is_last_selective (data : MeshSnapshot) (events : list Event) :
  cacheVertices (run events (start data))
    = vertices <$> last_selective events None ∧
  cacheIndices (run events (start data))
    = indices <$> last_selective events None.
Proof. apply run_last_selective; reflexivity. Qed.











(** ** Clicks *)

(** X16.  A click issues at most one effect and it is a request, never an
    alert; it leaves the state as it is.  It issues nothing when nothing is
    hit, when the nearest hit is neither a mesh nor a point cloud, when the
    nearest hit is a mesh and the mode is not "tessellate", and, whatever
    is hit, when the mode is none of "tessellate", "search", "retrieve" and
    "store" (as in mode "view"). *)
Theorem click_requests (objects : list Intersection) (s : State) :
  (length (onClick objects s) ≤ 1)%nat ∧
  (∀ e, e ∈ onClick objects s → ∃ request, e = fetch request) ∧
  fst (handle (click objects) s) = s ∧
  (objects = [] → onClick objects s = []) ∧
  (∀ hit rest, objects = hit :: rest →
     typeOf s (object hit) ≠ "Mesh" → typeOf s (object hit) ≠ "Points" →
     onClick objects s = []) ∧
  (∀ hit rest, objects = hit :: rest →
     typeOf s (object hit) = "Mesh" → mode (params s) ≠ "tessellate" →
     onClick objects s = []) ∧
  (mode (params s) ≠ "tessellate" → mode (params s) ≠ "search" →
   mode (params s) ≠ "retrieve" → mode (params s) ≠ "store" →
   onClick objects s = []).
Proof.
  unfold onClick. destruct objects as [|hit rest].
  { split_and!;
      first [done | simpl; lia | intros e He; by apply elem_of_nil in He]. }
  destruct (String.eqb_spec (typeOf s (object hit)) "Mesh") as [Hmesh|Hmesh];
    [|destruct (String.eqb_spec (typeOf s (object hit)) "Points")
        as [Hpoints|Hpoints]];
    destruct (String.eqb_spec (mode (params s)) "tessellate") as [Ht|Ht];
    try destruct (String.eqb_spec (mode (params s)) "search") as [Hs|Hs];
    try destruct (String.eqb_spec (mode (params s)) "retrieve") as [Hr|Hr];
    try destruct (String.eqb_spec (mode (params s)) "store") as [Ho|Ho];
    cbn [negb length];
    (split_and!;
     [ lia
     | intros e He;
       first [ by apply elem_of_nil in He
             | apply list_elem_of_singleton in He; eauto ]
     | reflexivity
     | discriminate
     | intros hit' rest' Heq; injection Heq as <- <-; congruence
     | intros hit' rest' Heq; injection Heq as <- <-; congruence
     | congruence ]).
Qed.

(** X17.  A click whose nearest hit is a point cloud sends, by mode:
    "tessellate", the vertex index with the configured distance to
    [vertexselective]; "search", the same body to [search]; "retrieve", the
    vertex index alone; "store", the vertex index with the text of "value to
    store".  The responses to [retrieve] and [store] are shown in an alert
    and leave the state as it is. *)
Theorem point_click_table (s : State) (hit : Intersection)
    (rest : list Intersection) :
  typeOf s (object hit) = "Points" →
  (mode (params s) = "tessellate" →
   onClick (hit :: rest) s
     = [fetch (vertexselective (index hit) (searchDistance (params s)))]) ∧
  (mode (params s) = "search" →
   onClick (hit :: rest) s
     = [fetch (search (index hit) (searchDistance (params s)))]) ∧
  (mode (params s) = "retrieve" →
   onClick (hit :: rest) s = [fetch (retrieve (index hit))]) ∧
  (mode (params s) = "store" →
   onClick (hit :: rest) s
     = [fetch (store (index hit) (storeValue (params s)))]) ∧
  (∀ value, handle (retrieve_response value) s = (s, [alert value])) ∧
  (∀ success, ∃ message, handle (store_response success) s = (s, [alert message])).
Proof.
  intros Htype. unfold onClick. rewrite Htype.
  split_and!; try (intros ->; reflexivity); [done|].
  intros success. by eexists.
Qed.

Lemma point_click_table_witness :
  onClick [overItem 3 1]
          (run [gui_mode "store"; gui_storeValue "abc"] (start triangle))
  = [fetch (store (index (overItem 3 1))
                  (storeValue (params (run [gui_mode "store";
                                            gui_storeValue "abc"]
                                           (start triangle)))))].
Proof.
  destruct (point_click_table
              (run [gui_mode "store"; gui_storeValue "abc"] (start triangle))
              (overItem 3 1) []) as (_ & _ & _ & Hstore & _);
    [vm_compute; reflexivity|].
  apply Hstore. vm_compute. reflexivity.
Defined.

(** ** The earlier variant *)






